(** * arxiv-sanity-preserver, [utils.py]

    A shallow embedding of the helpers of [utils.py] and the properties
    its specification states about them.

    The program:
    - [ArxivId]: [strip_version] and [isvalidid], over [Str] ([str]
      methods) and [Re] (the fragment of [re] that the pattern uses);
    - [Config]: the [ConfigFromFile] loader, over [Cfg], a model of
      [configparser.ConfigParser];
    - [Atomic]: the [_tempfile] and [open_atomic] context managers, over
      [Os], a model of the file system calls they make.

    The properties: [ArxivIdFacts], [ConfigFacts] and [AtomicFacts], over
    the lemmas of [StrFacts], [ReFacts], [OsFacts] and [PathFacts].

    Python values are modelled as follows.  A [str] is a [string]; Python
    strings are sequences of code points, the model covers the 8-bit ones,
    where [\d] is [0-9].  A [dict] with string keys is a [gmap string _].
    An exception is a value of [exn]; a call that may raise returns a
    [result], and a call with effects on the file system is a function of
    the [world] it runs in. *)

From Stdlib Require Import Ascii.
From Stdlib.Strings Require Import Byte.
From stdpp Require Import base option list gmap strings.

(** ** Exceptions and results *)

Module Py.

(** The exception classes that [utils.py] and the library calls it makes
    can raise.  [OSError] carries [errno]; the [configparser] errors carry
    the option and section they are about; [Raised] is an exception of
    the caller's own. *)
Inductive exn : Type :=
| OSError (errno : Z)
| NameError (name : string)
| ValueError (msg : string)
| IndexError
| UnsupportedOperation (what : string)
| NoSectionError (section : string)
| NoOptionError (option section : string)
| InterpolationSyntaxError (option section : string)
| InterpolationMissingOptionError (option section reference : string)
| InterpolationDepthError (option section : string)
| Raised (tag : string).

Inductive result (A : Type) : Type :=
| Ok (a : A)
| Err (e : exn).
Global Arguments Ok {A} a.
Global Arguments Err {A} e.

Global Instance exn_eq_dec : EqDecision exn.
Proof. solve_decision. Defined.

(** [errno] values (Linux). *)
Definition ENOENT : Z := 2%Z.
Definition EBUSY : Z := 16%Z.
Definition EEXIST : Z := 17%Z.
Definition ENOTDIR : Z := 20%Z.
Definition EISDIR : Z := 21%Z.
Definition EINVAL : Z := 22%Z.
Definition ENOTEMPTY : Z := 39%Z.

End Py.
Import Py.

(** ** Strings *)

Module Str.

Fixpoint mem (c : ascii) (s : string) : bool :=
  match s with
  | EmptyString => false
  | String x t => if decide (x = c) then true else mem c t
  end.

Fixpoint all (p : ascii -> bool) (s : string) : bool :=
  match s with
  | EmptyString => true
  | String x t => p x && all p t
  end.

(** [str.split(sep)] for a one-character separator: the pieces between
    the occurrences of [sep], in order; never the empty list. *)
Fixpoint split (sep : ascii) (s : string) : list string :=
  match s with
  | EmptyString => [EmptyString]
  | String x t =>
      if decide (x = sep) then EmptyString :: split sep t
      else match split sep t with
           | p :: ps => String x p :: ps
           | [] => [String x EmptyString]
           end
  end.

(** [l[i]] on a Python list: [IndexError] out of range. *)
Definition index {A} (l : list A) (i : nat) : result A :=
  match l !! i with
  | Some a => Ok a
  | None => Err IndexError
  end.

(** [s.find(c)]: the index of the first [c]; [None] stands for [-1]. *)
Fixpoint find (c : ascii) (s : string) : option nat :=
  match s with
  | EmptyString => None
  | String x t => if decide (x = c) then Some 0 else S <$> find c t
  end.

(** The slices [s[:n]] and [s[n:]]. *)
Fixpoint take (n : nat) (s : string) : string :=
  match n, s with
  | S n', String x t => String x (take n' t)
  | _, _ => EmptyString
  end.

Fixpoint drop (n : nat) (s : string) : string :=
  match n, s with
  | S n', String _ t => drop n' t
  | _, _ => s
  end.

(** The prefix of [s] before the first occurrence of [c], the whole of
    [s] when [c] does not occur. *)
Fixpoint before (c : ascii) (s : string) : string :=
  match s with
  | EmptyString => EmptyString
  | String x t => if decide (x = c) then EmptyString else String x (before c t)
  end.

End Str.

(** ** Regular expressions: the fragment of [re] the source uses *)

Module Re.

(** A set of characters: [\d], or one literal character. *)
Inductive cset : Type :=
| Digit
| Chr (c : ascii).

Definition is_digit (c : ascii) : bool :=
  (48 <=? nat_of_ascii c) && (nat_of_ascii c <=? 57).

Definition cset_mem (cs : cset) (x : ascii) : bool :=
  match cs with
  | Digit => is_digit x
  | Chr c => if decide (x = c) then true else false
  end.

Definition newline : string := String "010" "".

Inductive regex : Type :=
| Bol                         (* ^ *)
| Eol                         (* $ *)
| One (cs : cset)             (* \d, \., v *)
| Many1 (cs : cset)           (* cs+ *)
| Opt (r : regex)             (* (r)? *)
| Seq (r1 r2 : regex).

Definition orelse {A} (x y : option A) : option A :=
  match x with Some _ => x | None => y end.

(** [cs+], greedy: one character of [cs], then as many more as the rest
    of the pattern [k] allows, the longest run tried first. *)
Fixpoint many1 {A} (cs : cset) (k : string -> option A) (s : string) : option A :=
  match s with
  | EmptyString => None
  | String x t => if cset_mem cs x then orelse (many1 cs k t) (k t) else None
  end.

(** The backtracking matcher.  [n] is the length of the whole subject,
    [s] what is left of it, [k] the rest of the pattern.  Without
    [re.MULTILINE], [^] matches at the start only, and [$] at the end and
    just before a newline that ends the subject. *)
Fixpoint run {A} (n : nat) (r : regex) (k : string -> option A) (s : string) : option A :=
  match r with
  | Bol => if decide (String.length s = n) then k s else None
  | Eol => if decide (s = "" \/ s = newline) then k s else None
  | One cs =>
      match s with
      | String x t => if cset_mem cs x then k t else None
      | EmptyString => None
      end
  | Many1 cs => many1 cs k s
  | Opt r1 => orelse (run n r1 k s) (k s)
  | Seq r1 r2 => run n r1 (run n r2 k) s
  end.

(** [re.match(pattern, s)]: a match anchored at the start of [s].  The
    match object is modelled by the text it spans, [m.group(0)]; [None]
    is no match. *)
Definition re_match (r : regex) (s : string) : option string :=
  run (String.length s) r
    (fun rest => Some (String.substring 0 (String.length s - String.length rest) s)) s.

(** Truth value of what [re.match] returns: a match object is truthy,
    [None] is falsy. *)
Definition truthy {A} (m : option A) : bool :=
  match m with Some _ => true | None => false end.

(** The matches of [r], declaratively: [r] matches a prefix of [s] and
    leaves [rest], in a subject of length [n]. *)
Fixpoint matches (n : nat) (r : regex) (s rest : string) : Prop :=
  match r with
  | Bol => String.length s = n /\ rest = s
  | Eol => (s = "" \/ s = newline) /\ rest = s
  | One cs => exists x, s = String x rest /\ cset_mem cs x = true
  | Many1 cs => exists a, s = a +:+ rest /\ a <> "" /\ Str.all (cset_mem cs) a = true
  | Opt r1 => matches n r1 s rest \/ rest = s
  | Seq r1 r2 => exists mid, matches n r1 s mid /\ matches n r2 mid rest
  end.

End Re.

(** ** arxiv utils *)

Module ArxivId.
Import Str Re.

(** [strip_version]: [parts = idstr.split('v'); return parts[0]]. *)
Definition strip_version (idstr : string) : result string :=
  let parts := split "v" idstr in
  index parts 0.

(** The pattern ['^\d+\.\d+(v\d+)?$']. *)
Definition id_pattern : regex :=
  Seq Bol
    (Seq (Many1 Digit)
       (Seq (One (Chr "."))
          (Seq (Many1 Digit)
             (Seq (Opt (Seq (One (Chr "v")) (Many1 Digit)))
                Eol)))).

Definition isvalidid (pid : string) : option string :=
  re_match id_pattern pid.

(** The form of an identifier as the specification words it: one or more
    digits, a dot, one or more digits, optionally [v] and one or more
    digits, and nothing else. *)
Definition digits1 (s : string) : Prop :=
  s <> "" /\ Str.all is_digit s = true.

Definition arxiv_form (s : string) : Prop :=
  exists a b, digits1 a /\ digits1 b /\
    (s = a +:+ "." +:+ b \/
     exists c, digits1 c /\ s = a +:+ "." +:+ b +:+ "v" +:+ c).

(** What the specification asks of [strip_version]: [pre] is [idstr] up
    to its first [v], or all of [idstr] when it has no [v]. *)
Definition stripped_of (idstr pre : string) : Prop :=
  (mem "v" idstr = false /\ pre = idstr) \/
  (mem "v" pre = false /\ exists post, idstr = pre +:+ "v" +:+ post).

(** The characters of the pattern: a digit, [.], [v], and the newline
    that [$] lets by. *)
Definition id_char (c : ascii) : bool :=
  is_digit c || bool_decide (c = "."%char) || bool_decide (c = "v"%char)
  || bool_decide (c = "010"%char).

End ArxivId.

(** ** [configparser], as far as [ConfigFromFile] uses it *)

Module Cfg.
Import Str.

(** The state of a [ConfigParser()] after [read]: the options of every
    section but [DEFAULT], and the options of the [DEFAULT] section.
    Values are the raw strings of the file. *)
Record ConfigParser : Type := {
  _sections : gmap string (gmap string string);
  _defaults : gmap string string
}.

Definition new_parser : ConfigParser :=
  {| _sections := ∅; _defaults := ∅ |}.

Definition default_section : string := "DEFAULT".
Definition MAX_INTERPOLATION_DEPTH : nat := 10.

(** The files [read] can open, each with what the reader makes of its
    text.  A path that is not a key is a file that cannot be opened. *)
Abbreviation cfg_files := (gmap string ConfigParser).

(** [parser.read(filename)] on a fresh parser: a file that cannot be
    opened is skipped silently ([except OSError: continue]). *)
Definition read (files : cfg_files) (filename : string) (p : ConfigParser) : ConfigParser :=
  match files !! filename with
  | Some ini => ini
  | None => p
  end.

Definition has_section (p : ConfigParser) (section : string) : bool :=
  bool_decide (is_Some (_sections p !! section)).

(** [optionxform]: [str.lower].  Among the code points below 256 the
    upper-case letters are [A-Z] and U+00C0 to U+00DE but U+00D7, and
    each has its lower-case letter 32 places above. *)
Definition lower_char (c : ascii) : ascii :=
  let n := nat_of_ascii c in
  if (65 <=? n) && (n <=? 90)
     || (192 <=? n) && (n <=? 222) && negb (n =? 215)
  then ascii_of_nat (n + 32) else c.

Fixpoint optionxform (s : string) : string :=
  match s with
  | EmptyString => EmptyString
  | String c t => String (lower_char c) (optionxform t)
  end.

(** [_unify_values]: the section's options chained before the defaults. *)
Definition _unify_values (p : ConfigParser) (section : string) : result (gmap string string) :=
  match _sections p !! section with
  | Some sectiondict => Ok (sectiondict ∪ _defaults p)
  | None =>
      if decide (section = default_section) then Ok (_defaults p)
      else Err (NoSectionError section)
  end.

(** [m = _KEYCRE.match(rest)] for [_KEYCRE = %\(([^)]+)\)s]: [rest] starts
    with [%(], a name without [)] that is not empty, and [)s].  The result
    is the name, [m.group(1)], and [rest[m.end():]]. *)
Definition keycre_match (rest : string) : option (string * string) :=
  let name := before ")" (drop 2 rest) in
  if decide (take 2 rest = "%(" /\ name <> "" /\
             take 2 (drop (2 + String.length name) rest) = ")s")
  then Some (name, drop (2 + String.length name + 2) rest)
  else None.

(** The [while rest] loop of [BasicInterpolation._interpolate_some].
    [nested accum v] is the call the loop makes on a value [v] that has a
    [%] of its own.  The loop shortens [rest] at every turn, so
    [S (length rest)] turns are enough. *)
Fixpoint interpolate_loop (nested : string -> string -> result string)
    (option section : string) (map : gmap string string)
    (turns : nat) (accum rest : string) {struct turns} : result string :=
  match turns with
  | 0 => Ok accum
  | S turns' =>
      if decide (rest = "") then Ok accum else
      match find "%" rest with
      | None => Ok (accum +:+ rest)
      | Some p =>
          let accum := accum +:+ take p rest in
          let rest := drop p rest in
          let c := take 1 (drop 1 rest) in
          if decide (c = "%") then
            interpolate_loop nested option section map turns' (accum +:+ "%") (drop 2 rest)
          else if decide (c = "(") then
            match keycre_match rest with
            | None => Err (InterpolationSyntaxError option section)
            | Some (name, rest') =>
                let var := optionxform name in
                match map !! var with
                | None => Err (InterpolationMissingOptionError option section var)
                | Some v =>
                    if mem "%" v then
                      match nested accum v with
                      | Err e => Err e
                      | Ok accum' =>
                          interpolate_loop nested option section map turns' accum' rest'
                      end
                    else
                      interpolate_loop nested option section map turns' (accum +:+ v) rest'
                end
            end
          else Err (InterpolationSyntaxError option section)
      end
  end.

(** [BasicInterpolation._interpolate_some].  [d] counts the levels of
    nesting still allowed: the call at [depth] has
    [d = MAX_INTERPOLATION_DEPTH + 1 - depth], and raises when
    [depth > MAX_INTERPOLATION_DEPTH]. *)
Fixpoint _interpolate_some (d : nat) (option section : string)
    (map : gmap string string) (accum rest : string) {struct d} : result string :=
  match d with
  | 0 => Err (InterpolationDepthError option section)
  | S d' =>
      interpolate_loop (_interpolate_some d' option section map)
        option section map (S (String.length rest)) accum rest
  end.
Global Arguments _interpolate_some : simpl never.

(** [BasicInterpolation.before_get]. *)
Definition before_get (section option value : string) (defaults : gmap string string)
  : result string :=
  _interpolate_some MAX_INTERPOLATION_DEPTH option section defaults "" value.

(** [parser.get(section, option)], with no [raw], [vars] or [fallback]. *)
Definition get (p : ConfigParser) (section option : string) : result string :=
  match _unify_values p section with
  | Err e => Err e
  | Ok d =>
      let option := optionxform option in
      match d !! option with
      | None => Err (NoOptionError option section)
      | Some value => before_get section option value d
      end
  end.

End Cfg.

(** ** [ConfigFromFile] *)

Module Config.
Import Cfg.

(** An instance: [config_file], [parser], and the attributes that
    [setattr] adds, by name. *)
Record ConfigFromFile : Type := {
  config_file : string;
  parser : ConfigParser;
  attrs : gmap string string
}.

Definition setattr (self : ConfigFromFile) (name val : string) : ConfigFromFile :=
  {| config_file := config_file self;
     parser := parser self;
     attrs := <[name := val]> (attrs self) |}.

Definition section_name : string := "arxiv-sanity".

Definition no_section_msg (file : string) : string :=
  "Config file " +:+ file +:+ " doesn't have section [arxiv-sanity]".

Definition _check_config (self : ConfigFromFile) : result unit :=
  if negb (has_section (parser self) section_name)
  then Err (ValueError (no_section_msg (config_file self)))
  else Ok tt.

Definition vars_list : list string :=
  [ "data_root"; "db_path"; "pdf_dir"; "txt_dir"; "thumbs_dir";
    "tfidf_path"; "meta_path"; "sim_path"; "user_sim_path";
    "db_serve_path"; "database_path"; "serve_cache_path";
    "beg_for_hosting_money"; "banned_path"; "tmp_dir" ].

(** The loop [for var in vars: val = parser.get(...); setattr(...)]. *)
Fixpoint populate (vars : list string) (self : ConfigFromFile) : result ConfigFromFile :=
  match vars with
  | [] => Ok self
  | var :: vars' =>
      match get (parser self) section_name var with
      | Err e => Err e
      | Ok val => populate vars' (setattr self var val)
      end
  end.

Definition _populate_vars (self : ConfigFromFile) : result ConfigFromFile :=
  populate vars_list self.

(** [ConfigFromFile(config_file)]: the constructor, [__init__]. *)
Definition __init__ (files : cfg_files) (config_file : string) : result ConfigFromFile :=
  let parser := read files config_file new_parser in
  let self := {| config_file := config_file; parser := parser; attrs := ∅ |} in
  match _check_config self with
  | Err e => Err e
  | Ok _ => _populate_vars self
  end.

(** [Config = ConfigFromFile()], with the default file name. *)
Definition Config (files : cfg_files) : result ConfigFromFile :=
  __init__ files "arxiv-sanity.cfg".

(** The options a [get] on the section sees: its own, then the
    defaults. *)
Definition visible (p : ConfigParser) (sec : gmap string string) : gmap string string :=
  sec ∪ _defaults p.

(** Sample files.  [plain_section] gives every required key a path under
    [/data]. *)
Definition plain_section : gmap string string :=
  list_to_map ((fun k => (k, "/data/" +:+ k)) <$> vars_list).

Definition with_section (sec defaults : gmap string string) : ConfigParser :=
  {| _sections := {[ section_name := sec ]}; _defaults := defaults |}.

(** [db_path = %(data_root)s/db.p] *)
Definition reference_section : gmap string string :=
  <["db_path" := "%(data_root)s/db.p"]> plain_section.

(** [beg_for_hosting_money = 100%] *)
Definition percent_section : gmap string string :=
  <["beg_for_hosting_money" := "100%"]> plain_section.

(** [tmp_dir] is given in [[DEFAULT]] and not in [[arxiv-sanity]]. *)
Definition short_section : gmap string string :=
  delete "tmp_dir" plain_section.
Definition tmp_default : gmap string string :=
  {[ "tmp_dir" := "/tmp" ]}.

Definition cfg : string := "arxiv-sanity.cfg".
Definition plain_files : cfg_files := {[ cfg := with_section plain_section ∅ ]}.
Definition reference_files : cfg_files := {[ cfg := with_section reference_section ∅ ]}.
Definition percent_files : cfg_files := {[ cfg := with_section percent_section ∅ ]}.
Definition short_files : cfg_files := {[ cfg := with_section short_section tmp_default ]}.

End Config.

(** ** The file system, and the calls [open_atomic] makes on it *)

Module Os.
Import Str.

(** The model is of one process on a POSIX file system without links:
    nothing else changes the files during a call, and every call is
    allowed; a call fails only for what the names name (a missing file or
    directory, a directory where a file is expected, a name that is
    taken).  Writes, flushes and closes do not fail.

    A path names a file by its spelling: the name space maps the paths,
    as they are written, to what they name, and two spellings of one file
    ([d/x] and [d//x], or a relative and an absolute path) are two names.
    What depends on which file a path names is stated below for
    [canonical] paths, each of which is the one spelling of what it
    names. *)

(** What a path names: a regular file with its bytes, or a directory.
    [""] as a directory is the working directory, [/] is the root. *)
Inductive node : Type :=
| File (data : list byte)
| Dir.

(** A file descriptor, by the path it was opened on. *)
Inductive fd : Type := Fd (path : string).

(** The calls made, in order. *)
Inductive event : Type :=
| EvCreate (path : string)            (* os.open(path, O_CREAT | O_EXCL) *)
| EvCloseFd (path : string)           (* os.close(fd) *)
| EvOpen (path : string)              (* open(path, mode) *)
| EvWrite (path : string) (data : list byte)
| EvFlush (path : string)             (* f.flush() *)
| EvFsync (path : string)             (* os.fsync(fd) *)
| EvClose (path : string)             (* f.close() *)
| EvRename (src dst : string)         (* os.rename(src, dst) *)
| EvRemove (path : string).           (* os.remove(path) *)

(** The world a call runs in: the name space of the file system, the
    draws the temporary-name generator will make (an endless sequence,
    one list of character choices per candidate name), and the calls made
    so far. *)
Record world : Type := {
  fs : gmap string node;
  draws : nat -> list nat;
  log : list event
}.

Definition set_fs (m : gmap string node) (w : world) : world :=
  {| fs := m; draws := draws w; log := log w |}.
Definition set_draws (d : nat -> list nat) (w : world) : world :=
  {| fs := fs w; draws := d; log := log w |}.
(** The world once the generator has made its next draw, [draws w 0]. *)
Definition next_draw (w : world) : world :=
  set_draws (fun i => draws w (S i)) w.
Definition emit (e : event) (w : world) : world :=
  {| fs := fs w; draws := draws w; log := log w ++ [e] |}.

(** A computation with effects on the world that returns or raises. *)
Definition M (A : Type) : Type := world -> result A * world.

Definition ret {A} (a : A) : M A := fun w => (Ok a, w).
Definition raise {A} (e : exn) : M A := fun w => (Err e, w).
Definition bind {A B} (m : M A) (k : A -> M B) : M B :=
  fun w => match m w with
           | (Ok a, w') => k a w'
           | (Err e, w') => (Err e, w')
           end.

(** [try: m finally: fin]: [fin] runs on both exits of [m]; an error of
    [fin] replaces the outcome of [m]. *)
Definition try_finally {A} (m : M A) (fin : M unit) : M A :=
  fun w => let '(r, w1) := m w in
           match fin w1 with
           | (Ok _, w2) => (r, w2)
           | (Err e, w2) => (Err e, w2)
           end.

(** [try: m except ...: h e]. *)
Definition try_except {A} (m : M A) (h : exn -> M A) : M A :=
  fun w => match m w with
           | (Ok a, w') => (Ok a, w')
           | (Err e, w') => h e w'
           end.

Global Instance M_ret : MRet M := @ret.
Global Instance M_bind : MBind M := fun A B k m => bind m k.

(** *** [os.path] (posixpath) *)

Fixpoint rfind (c : ascii) (s : string) : option nat :=
  match s with
  | EmptyString => None
  | String x t =>
      match rfind c t with
      | Some i => Some (S i)
      | None => if decide (x = c) then Some 0 else None
      end
  end.

Fixpoint rstrip (c : ascii) (s : string) : string :=
  match s with
  | EmptyString => EmptyString
  | String x t =>
      match rstrip c t with
      | EmptyString => if decide (x = c) then EmptyString else String x EmptyString
      | t' => String x t'
      end
  end.

Definition is_sep (c : ascii) : bool := if decide (c = "/"%char) then true else false.

(** [os.path.dirname]: [i = p.rfind('/') + 1; head = p[:i]]; a head that
    is not all slashes loses its trailing slashes. *)
Definition dirname (p : string) : string :=
  let i := match rfind "/" p with Some j => S j | None => 0 end in
  let head := take i p in
  if negb (bool_decide (head = "")) && negb (all is_sep head)
  then rstrip "/" head else head.

Definition startswith (c : ascii) (s : string) : bool :=
  match s with String x _ => if decide (x = c) then true else false | _ => false end.

Fixpoint endswith (c : ascii) (s : string) : bool :=
  match s with
  | EmptyString => false
  | String x EmptyString => if decide (x = c) then true else false
  | String _ t => endswith c t
  end.

(** [os.path.join(a, b)]. *)
Definition join (a b : string) : string :=
  if startswith "/" b then b
  else if bool_decide (a = "") || endswith "/" a then a +:+ b
  else a +:+ "/" +:+ b.

(** [os.path.basename]: [p[p.rfind('/') + 1:]]. *)
Definition basename (p : string) : string :=
  drop (match rfind "/" p with Some j => S j | None => 0 end) p.

(** The directories on the way down [p]: the prefixes of [p] that end
    where a name is followed by a slash, the shortest first;
    [parents "/a/b/c"] is [["/a"; "/a/b"]]. *)
Fixpoint parents_from (pre s : string) : list string :=
  match s with
  | EmptyString => []
  | String c t =>
      (if is_sep c && negb (bool_decide (pre = "")) && negb (endswith "/" pre)
       then [pre] else [])
      ++ parents_from (pre +:+ String c "") t
  end.

Definition parents (p : string) : list string := parents_from "" p.

(** An absolute path in normal form, as [os.path.abspath] gives paths
    below the root: a slash, then names separated by single slashes, none
    of them empty, [.] or [..]. *)
Definition plain_component (s : string) : bool :=
  negb (bool_decide (s = "")) && negb (bool_decide (s = "."))
  && negb (bool_decide (s = "..")).

Definition canonical (p : string) : bool :=
  match p with
  | String c rest => is_sep c && forallb plain_component (split "/" rest)
  | EmptyString => false
  end.

(** A name space in which every name is [canonical]: each file has one
    name. *)
Definition canonical_fs (m : gmap string node) : Prop :=
  map_Forall (fun p _ => canonical p = true) m.

(** *** Primitive calls *)

(** Looking a directory up: a name that is missing gives [ENOENT], a
    regular file gives [ENOTDIR]. *)
Definition is_dir (m : gmap string node) (p : string) : result unit :=
  match m !! p with
  | Some Dir => Ok tt
  | Some (File _) => Err (OSError ENOTDIR)
  | None => Err (OSError ENOENT)
  end.

Fixpoint all_dirs (m : gmap string node) (l : list string) : result unit :=
  match l with
  | [] => Ok tt
  | p :: rest =>
      match is_dir m p with
      | Ok _ => all_dirs m rest
      | Err e => Err e
      end
  end.

(** The walk down to the directory [dir], in which a call is about to
    look a name up: every directory on the way and [dir] itself is looked
    up in turn, and the first that fails gives the error.  The working
    directory ([""]) and the root are there. *)
Definition dir_exists (m : gmap string node) (dir : string) : result unit :=
  all_dirs m (parents (dir +:+ "/")).

(** [tempfile._RandomNameSequence]: a name is a run of characters chosen
    from [characters]. *)
Definition characters : string := "abcdefghijklmnopqrstuvwxyz0123456789_".

Definition choice (i : nat) : ascii :=
  match String.get (i mod 37) characters with
  | Some c => c
  | None => "a"%char
  end.

Fixpoint rand_name (choices : list nat) : string :=
  match choices with
  | [] => EmptyString
  | i :: rest => String (choice i) (rand_name rest)
  end.

Definition template : string := "tmp".

(** [tempfile.TMP_MAX], the number of candidate names [mkstemp] tries:
    [os.TMP_MAX], 238328 with glibc. *)
Definition TMP_MAX : nat := S (N.to_nat 238327).

(** The loop of [tempfile._mkstemp_inner], [for seq in range(TMP_MAX)]:
    a name is drawn and [os.open(file, O_CREAT | O_EXCL)] is called on
    the candidate.  The call raises when the walk down to [dir] fails,
    and the loop raises with it; a candidate that exists is skipped
    ([except FileExistsError: continue]); the first candidate that is
    free is created, empty, and returned.  When no attempt is left the
    loop raises [FileExistsError].

    [tempfile] makes [dir] absolute first ([os.path.abspath]), which
    leaves the directory of a [canonical] path as it is; the path
    returned here is the candidate under [dir] as [dir] is spelled. *)
Fixpoint _mkstemp_inner (dir : string) (attempts : nat) (w : world)
  : result (fd * string) * world :=
  match attempts with
  | 0 => (Err (OSError EEXIST), w)
  | S n =>
      let file := join dir (template +:+ rand_name (draws w 0)) in
      let w := emit (EvCreate file) (next_draw w) in
      match dir_exists (fs w) dir with
      | Err e => (Err e, w)
      | Ok _ =>
          match fs w !! file with
          | Some _ => _mkstemp_inner dir n w
          | None => (Ok (Fd file, file), set_fs (<[file := File []]> (fs w)) w)
          end
      end
  end.

(** [tempfile.mkstemp(dir=dir)]. *)
Definition mkstemp (dir : string) : M (fd * string) :=
  _mkstemp_inner dir TMP_MAX.

(** [os.close(fd)]. *)
Definition os_close (d : fd) : M unit :=
  fun w => let 'Fd p := d in (Ok tt, emit (EvCloseFd p) w).

(** [os.remove(path)]: unlinks a regular file; [path] ends with a name,
    as the path [mkstemp] returns does. *)
Definition os_remove (path : string) : M unit :=
  fun w => let w := emit (EvRemove path) w in
           match fs w !! path with
           | None => (Err (OSError ENOENT), w)
           | Some Dir => (Err (OSError EISDIR), w)
           | Some (File _) => (Ok tt, set_fs (delete path (fs w)) w)
           end.

(** A destination whose last name is [.] or [..], or that is the root:
    [rename] answers [EBUSY]. *)
Definition busy (p : string) : bool :=
  let b := basename (rstrip "/" p) in
  all is_sep p || bool_decide (b = ".") || bool_decide (b = "..").

Definition is_file (n : node) : bool :=
  match n with File _ => true | Dir => false end.

(** The names below the directory [d], and the name space once the
    directory [s] has moved to [d] with what is below it. *)
Definition under (d k : string) : bool := String.prefix (d +:+ "/") k.

Definition has_children (m : gmap string node) (d : string) : bool :=
  bool_decide (map_Exists (fun k _ => under d k = true) m).

Definition moved (s d : string) (m : gmap string node) : gmap string node :=
  <[d := Dir]>
    (list_to_map
       (map (fun '(k, n) =>
               (if under s k then d +:+ drop (String.length s) k else k, n))
            (map_to_list (delete d (delete s m))))).

(** [os.rename(src, dst)], in the order of the checks of [rename(2)].
    An empty [src] gives [ENOENT]; then comes the walk down to the
    directory of [src]; then the same for [dst]; the last names of the
    two paths ([EBUSY]); the look-up of [src] without its trailing
    slashes ([ENOENT]); a trailing slash on either path when [src] is a
    regular file ([ENOTDIR]); a directory [src] on the way down to [dst]
    ([EINVAL]), and [dst] on the way down to [src] ([ENOTEMPTY]).
    Renaming a path onto itself does nothing; a regular file does not
    replace a directory ([EISDIR]), nor a directory a regular file
    ([ENOTDIR]) or a directory that is not empty ([ENOTEMPTY]);
    otherwise [dst], when it exists, is replaced in one step. *)
Definition os_rename (src dst : string) : M unit :=
  fun w =>
    let w := emit (EvRename src dst) w in
    let s := rstrip "/" src in
    let d := rstrip "/" dst in
    let walk p :=
      if bool_decide (p = "") then Err (OSError ENOENT)
      else dir_exists (fs w) (dirname (rstrip "/" p)) in
    match walk src, walk dst with
    | Err e, _ => (Err e, w)
    | Ok _, Err e => (Err e, w)
    | Ok _, Ok _ =>
        if busy src || busy dst then (Err (OSError EBUSY), w)
        else
          match fs w !! s with
          | None => (Err (OSError ENOENT), w)
          | Some n =>
              if is_file n && (endswith "/" src || endswith "/" dst)
              then (Err (OSError ENOTDIR), w)
              else if negb (is_file n) && bool_decide (s ∈ parents d)
              then (Err (OSError EINVAL), w)
              else if bool_decide (d ∈ parents s)
              then (Err (OSError ENOTEMPTY), w)
              else if decide (s = d) then (Ok tt, w)
              else match n, fs w !! d with
                   | File _, Some Dir => (Err (OSError EISDIR), w)
                   | File _, _ => (Ok tt, set_fs (<[d := n]> (delete s (fs w))) w)
                   | Dir, Some (File _) => (Err (OSError ENOTDIR), w)
                   | Dir, _ =>
                       if has_children (fs w) d then (Err (OSError ENOTEMPTY), w)
                       else (Ok tt, set_fs (moved s d (fs w)) w)
                   end
          end
    end.

(** [os.fsync(fd)]. *)
Definition os_fsync (d : fd) : M unit :=
  fun w => let 'Fd p := d in (Ok tt, emit (EvFsync p) w).

(** *** File objects *)

(** The mode of [open]: one of [r], [w], [a], [x], with or without [+].
    Data is bytes in binary and in text mode alike. *)
Inductive kind : Type := R | W | A | X.
Record fmode : Type := { mkind : kind; plus : bool }.

Definition wb : fmode := {| mkind := W; plus := false |}.

Definition writable (m : fmode) : bool :=
  match mkind m with R => plus m | _ => true end.

(** A file object: the path it was opened on and its mode. *)
Record file : Type := { name : string; mode : fmode }.

(** [open(path, mode)].  A name that is there is opened ([w] empties
    the file), unless the mode is [x] or the name is a directory's.  A
    name that is not there is created, in a directory that is there,
    unless the mode is [r]; a path that ends with [.], [..] or a slash is
    a directory's, not a name to create. *)
Definition py_open (path : string) (m : fmode) : M file :=
  fun w =>
    let w := emit (EvOpen path) w in
    let f := {| name := path; mode := m |} in
    let create data := (Ok f, set_fs (<[path := File data]> (fs w)) w) in
    match fs w !! path, mkind m with
    | Some _, X => (Err (OSError EEXIST), w)
    | Some Dir, _ => (Err (OSError EISDIR), w)
    | Some (File _), W => create []
    | Some (File _), _ => (Ok f, w)
    | None, k =>
        if bool_decide (path = "") then (Err (OSError ENOENT), w)
        else
          match dir_exists (fs w) (dirname (rstrip "/" path)) with
          | Err e => (Err e, w)
          | Ok _ =>
              if busy path
              then (Err (OSError (match k with X => EEXIST | _ => EISDIR end)), w)
              else if endswith "/" path
              then match k, fs w !! rstrip "/" path with
                   | R, Some (File _) => (Err (OSError ENOTDIR), w)
                   | R, None => (Err (OSError ENOENT), w)
                   | _, _ => (Err (OSError EISDIR), w)
                   end
              else match k with
                   | R => (Err (OSError ENOENT), w)
                   | _ => create []
                   end
          end
    end.

(** [f.write(data)]: on a handle that is not writable the call raises;
    otherwise the bytes go to the end of the file, where the position of
    a handle on a file that was empty when it was opened is.  When the
    path no longer names the file, the write reaches no name. *)
Definition f_write (f : file) (data : list byte) : M unit :=
  fun w =>
    let w := emit (EvWrite (name f) data) w in
    if writable (mode f) then
      match fs w !! name f with
      | Some (File old) => (Ok tt, set_fs (<[name f := File (old ++ data)]> (fs w)) w)
      | _ => (Ok tt, w)
      end
    else (Err (UnsupportedOperation "write"), w).

Definition f_flush (f : file) : M unit :=
  fun w => (Ok tt, emit (EvFlush (name f)) w).

Definition f_close (f : file) : M unit :=
  fun w => (Ok tt, emit (EvClose (name f)) w).

Definition fileno (f : file) : M fd :=
  ret (Fd (name f)).

(** [with open(path, mode) as f: block f]: the file is closed on both
    exits of the block. *)
Definition with_open {A} (path : string) (m : fmode) (block : file -> M A) : M A :=
  f ← py_open path m;
  try_finally (block f) (f_close f).

(** The renames and the fsyncs among the calls made. *)
Fixpoint renames (l : list event) : list (string * string) :=
  match l with
  | [] => []
  | EvRename src dst :: rest => (src, dst) :: renames rest
  | _ :: rest => renames rest
  end.

Fixpoint fsyncs (l : list event) : list string :=
  match l with
  | [] => []
  | EvFsync p :: rest => p :: fsyncs rest
  | _ :: rest => fsyncs rest
  end.

(** [wX] is [w] with the temporary file [tmp] added, holding [d], and
    with no rename and no fsync made since. *)
Definition holding (tmp : string) (d : list byte) (w wX : world) : Prop :=
  fs wX = <[tmp := File d]> (fs w) /\
  renames (log wX) = renames (log w) /\
  fsyncs (log wX) = fsyncs (log w).

(** Events that are neither a rename nor an fsync. *)
Definition quiet (e : event) : Prop :=
  renames [e] = [] /\ fsyncs [e] = [].

(** [open(path, 'rb').read()]: the bytes of the file, when [path] names
    one. *)
Definition read_bytes (path : string) (w : world) : option (list byte) :=
  match fs w !! path with
  | Some (File data) => Some data
  | _ => None
  end.

(** Look-up of a name that holds a file object.  [scope] is what the
    function has bound; nothing at module level or among the builtins of
    Python 3 holds one. *)
Definition load_name (scope : gmap string file) (id : string) : M file :=
  match scope !! id with
  | Some v => ret v
  | None => raise (NameError id)
  end.

End Os.

(** ** The context managers of [utils.py] *)

Module Atomic.
Import Os.

(** [_tempfile]: a generator under [@contextmanager]; the block of the
    [with] statement runs at its [yield] and is [body] here. *)
Definition _tempfile {A} (dir : string) (body : string -> M A) : M A :=
  '(fd, name) ← mkstemp dir;
  os_close fd;;
  try_finally (body name)
    (try_except (os_remove name)
       (fun e => match e with
                 | OSError errno => if decide (errno = 2%Z) then ret tt else raise e
                 | _ => raise e
                 end)).

(** [open_atomic(filepath, mode, fsync=fsync)]; [body] is the block of
    the caller's [with] statement, run at [yield f]. *)
Definition open_atomic (filepath : string) (m : fmode) (fsync : bool)
    (body : file -> M unit) : M unit :=
  _tempfile (dirname filepath) (fun tmppath =>
    with_open tmppath m (fun f =>
      let scope : gmap string file := {[ "f" := f ]} in
      body f;;
      if fsync then
        (f0 ← load_name scope "f"; f_flush f0);;
        (f1 ← load_name scope "file"; d ← fileno f1; os_fsync d)
      else ret tt);;
    os_rename tmppath filepath).

(** *** Callers' blocks that use the handle only *)

Inductive action : Type :=
| Write (data : list byte)
| Flush.

(** A block: calls on the handle, then a normal end ([None]) or a
    [raise]. *)
Record block : Type := { actions : list action; ending : option exn }.

Definition act (f : file) (a : action) : M unit :=
  match a with
  | Write data => f_write f data
  | Flush => f_flush f
  end.

Fixpoint acts (f : file) (l : list action) : M unit :=
  match l with
  | [] => ret tt
  | a :: rest => act f a;; acts f rest
  end.

Definition play (b : block) (f : file) : M unit :=
  acts f (actions b);;
  match ending b with
  | None => ret tt
  | Some e => raise e
  end.

(** The bytes a block writes. *)
Fixpoint written (l : list action) : list byte :=
  match l with
  | [] => []
  | Write data :: rest => data ++ written rest
  | Flush :: rest => written rest
  end.

(** The error a block ends with on a handle of mode [m]: a [write] on a
    handle that is not writable raises; otherwise its own [raise]. *)
Fixpoint acts_error (m : fmode) (l : list action) : option exn :=
  match l with
  | [] => None
  | Write _ :: rest =>
      if writable m then acts_error m rest else Some (UnsupportedOperation "write")
  | Flush :: rest => acts_error m rest
  end.

Definition block_error (m : fmode) (b : block) : option exn :=
  match acts_error m (actions b) with
  | Some e => Some e
  | None => ending b
  end.

(** The error the block of [with open(...) as f] ends with: the
    caller's, or the [NameError] of the [fsync] branch. *)
Definition inner_error (m : fmode) (fsync : bool) (b : block) : option exn :=
  match block_error m b with
  | Some e => Some e
  | None => if fsync then Some (NameError "file") else None
  end.

Definition outcome (e : option exn) : result unit :=
  match e with Some e => Err e | None => Ok tt end.

(** [safe_pickle_dump(obj, fname)].  [pickle] is not part of the
    repository: [dump obj] stands for the calls that
    [pickle.dump(obj, f, -1)] makes on [f], writes of the bytes of the
    pickle in order and then a normal end, or a [raise] for an object that
    cannot be pickled. *)
Definition safe_pickle_dump {Obj : Type} (dump : Obj -> block) (obj : Obj)
    (fname : string) : M unit :=
  open_atomic fname wb false (play (dump obj)).

(** [pickle.load(open(fname, 'rb'))], for a decoder [loads] of pickles. *)
Definition pickle_load {Obj : Type} (loads : list byte -> option Obj)
    (fname : string) (w : world) : option Obj :=
  read_bytes fname w ≫= loads.

(** A sample pickler for [option bool]: [Some true] and [Some false] are
    pickled as [True] and [False] are at protocol 5, the highest, in the
    one write the pickler makes when it is done; [None] stands for an
    object that cannot be pickled, for which the pickler raises before it
    has written anything. *)
Definition sample_dump (o : option bool) : block :=
  match o with
  | Some true => {| actions := [Write [x80; x05; x88; x2e]]; ending := None |}
  | Some false => {| actions := [Write [x80; x05; x89; x2e]]; ending := None |}
  | None => {| actions := []; ending := Some (Raised "PicklingError") |}
  end.

Definition sample_loads (data : list byte) : option (option bool) :=
  match data with
  | [x80; x05; x88; x2e] => Some (Some true)
  | [x80; x05; x89; x2e] => Some (Some false)
  | _ => None
  end.

(** A sample world: a directory [d] with a file [out.p] in it, and a
    name generator whose every draw gives [tmpabcdefgh]. *)
Definition sample_world : world :=
  {| fs := {[ "d" := Dir; "d/out.p" := File [x01] ]};
     draws := fun _ => [0; 1; 2; 3; 4; 5; 6; 7];
     log := [] |}.

Definition sample_tmp : string := "d/tmpabcdefgh".

(** The same under the root, with [canonical] paths. *)
Definition root_world : world :=
  {| fs := {[ "/d" := Dir; "/d/out.p" := File [x01] ]};
     draws := fun _ => [0; 1; 2; 3; 4; 5; 6; 7];
     log := [] |}.

Definition root_tmp : string := "/d/tmpabcdefgh".

(** Blocks that write [ab] in two calls and end normally, or raise. *)
Definition writes_ab : block :=
  {| actions := [Write [x61]; Write [x62]]; ending := None |}.
Definition writes_then_raises : block :=
  {| actions := [Write [x61]; Write [x62]]; ending := Some (Raised "boom") |}.

End Atomic.

(** * Properties *)

(** ** Strings *)

Module StrFacts.
Import Str.

Lemma sapp_cons (x : ascii) (s t : string) :
  String x s +:+ t = String x (s +:+ t).
Proof. reflexivity. Qed.

Lemma sapp_empty_r (s : string) : s +:+ "" = s.
Proof. induction s as [|x s IH]; [done|]. by rewrite sapp_cons, IH. Qed.

Lemma sapp_assoc (s t u : string) : (s +:+ t) +:+ u = s +:+ t +:+ u.
Proof. induction s as [|x s IH]; [done|]. by rewrite !sapp_cons, IH. Qed.

Lemma sapp_eq_empty (s t : string) : s +:+ t = "" -> s = "" /\ t = "".
Proof. destruct s; [done|]. by rewrite sapp_cons. Qed.

Lemma mem_app (c : ascii) (s t : string) :
  mem c (s +:+ t) = mem c s || mem c t.
Proof.
  induction s as [|x s IH]; [done|].
  rewrite sapp_cons. simpl. by destruct (decide (x = c)).
Qed.

Lemma all_app (p : ascii -> bool) (s t : string) :
  all p (s +:+ t) = all p s && all p t.
Proof.
  induction s as [|x s IH]; [done|].
  rewrite sapp_cons. simpl. rewrite IH. by destruct (p x).
Qed.

(** A character that fails [p] is not in a string whose characters all
    pass [p]. *)
Lemma all_not_mem (p : ascii -> bool) (c : ascii) (s : string) :
  p c = false -> all p s = true -> mem c s = false.
Proof.
  intros Hc. induction s as [|x s IH]; [done|]. simpl.
  intros [Hx Hs]%andb_prop. destruct (decide (x = c)) as [->|]; [congruence|auto].
Qed.

(** The first piece of [split] is the text before the first separator. *)
Lemma split_head (sep : ascii) (s : string) :
  split sep s !! 0 = Some (before sep s).
Proof.
  induction s as [|x s IH]; [done|]. simpl.
  destruct (decide (x = sep)); [done|].
  destruct (split sep s) as [|p ps]; [done|].
  simpl in *. congruence.
Qed.

Lemma before_no (c : ascii) (s : string) :
  mem c s = false -> before c s = s.
Proof.
  induction s as [|x s IH]; [done|]. simpl.
  destruct (decide (x = c)); [done|]. intros H. by rewrite IH.
Qed.

Lemma before_app (c : ascii) (s t : string) :
  mem c s = false -> before c (s +:+ String c t) = s.
Proof.
  induction s as [|x s IH]; simpl.
  - intros _. by rewrite decide_True.
  - destruct (decide (x = c)); [done|]. intros H. by rewrite IH.
Qed.

Lemma mem_before (c : ascii) (s : string) : mem c (before c s) = false.
Proof.
  induction s as [|x s IH]; [done|]. simpl.
  destruct (decide (x = c)); [done|]. simpl. by rewrite decide_False.
Qed.

(** [s] is [before c s] followed by nothing or by [c] and the rest. *)
Lemma before_split (c : ascii) (s : string) :
  exists rest, s = before c s +:+ rest /\ (rest = "" \/ exists t, rest = String c t).
Proof.
  induction s as [|x s (rest & Hs & Hrest)]; simpl.
  - exists "". auto.
  - destruct (decide (x = c)) as [->|].
    + exists (String c s). eauto.
    + exists rest. rewrite sapp_cons. by rewrite <- Hs.
Qed.

Lemma slength_app (s t : string) :
  String.length (s +:+ t) = String.length s + String.length t.
Proof. induction s as [|x s IH]; [done|]. simpl. by rewrite IH. Qed.

End StrFacts.

(** ** The matcher *)

Module ReFacts.
Import Str Re StrFacts.

Lemma orelse_is_Some {A} (x y : option A) :
  is_Some (orelse x y) <-> is_Some x \/ is_Some y.
Proof.
  destruct x; simpl; split; eauto.
  intros [H|H]; [|done]. by destruct H.
Qed.

Lemma many1_spec {A} (cs : cset) (k : string -> option A) (s : string) :
  is_Some (many1 cs k s) <->
  exists a rest, s = a +:+ rest /\ a <> "" /\ all (cset_mem cs) a = true /\ is_Some (k rest).
Proof.
  induction s as [|x t IH]; simpl.
  - split; [by intros []|].
    intros (a & rest & Hs & Ha & _). symmetry in Hs.
    by apply sapp_eq_empty in Hs as [? _].
  - destruct (cset_mem cs x) eqn:Hx.
    + rewrite orelse_is_Some, IH. split.
      * intros [(a & rest & -> & _ & Ha & Hk)|Hk].
        -- exists (String x a), rest. simpl. by rewrite Hx.
        -- exists (String x ""), t. simpl. by rewrite Hx.
      * intros ([|y a] & rest & Hs & Hne & Ha & Hk); [done|].
        rewrite sapp_cons in Hs. injection Hs as <- ->. simpl in Ha.
        apply andb_prop in Ha as [_ Ha].
        destruct a as [|z a]; [by right|].
        left. by exists (String z a), rest.
    + split; [by intros []|].
      intros ([|y a] & rest & Hs & Hne & Ha & _); [done|].
      rewrite sapp_cons in Hs. injection Hs as <- ->. simpl in Ha.
      by rewrite Hx in Ha.
Qed.

(** The matcher finds a match exactly when there is one. *)
Lemma run_spec {A} (n : nat) (r : regex) :
  forall (k : string -> option A) (s : string),
    is_Some (run n r k s) <-> exists rest, matches n r s rest /\ is_Some (k rest).
Proof.
  induction r as [| |cs|cs|r1 IH1|r1 IH1 r2 IH2]; intros k s; simpl.
  - destruct (decide (String.length s = n)) as [Hn|Hn].
    + split; [by exists s|]. by intros (? & [_ ->] & ?).
    + split; [by intros []|]. by intros (? & [? _] & _).
  - destruct (decide (s = "" \/ s = newline)) as [He|He].
    + split; [by exists s|]. by intros (? & [_ ->] & ?).
    + split; [by intros []|]. by intros (? & [? _] & _).
  - destruct s as [|x t].
    + split; [by intros []|]. by intros (? & (? & ? & _) & _).
    + destruct (cset_mem cs x) eqn:Hx.
      * split; [intros Hk; exists t; eauto|].
        intros (rest & (y & Hs & _) & Hk). by injection Hs as _ ->.
      * split; [by intros []|].
        intros (rest & (y & Hs & Hy) & _). injection Hs as <- _. congruence.
  - rewrite many1_spec. split.
    + intros (a & rest & ? & ? & ? & ?). exists rest. eauto.
    + intros (rest & (a & ? & ? & ?) & ?). by exists a, rest.
  - rewrite orelse_is_Some, IH1. split.
    + intros [(rest & ? & ?)|?]; [exists rest; auto|exists s; auto].
    + intros (rest & [?| ->] & ?); [left; eauto|by right].
  - rewrite IH1. split.
    + intros (mid & H1 & (rest & H2 & Hk)%IH2). exists rest. eauto.
    + intros (rest & (mid & H1 & H2) & Hk). exists mid. split; [done|].
      apply IH2. eauto.
Qed.

Lemma truthy_is_Some {A} (m : option A) : truthy m = true <-> is_Some m.
Proof. destruct m; simpl; split; intros H; eauto; try done; by destruct H. Qed.

Lemma re_match_spec (r : regex) (s : string) :
  truthy (re_match r s) = true <-> exists rest, matches (String.length s) r s rest.
Proof.
  rewrite truthy_is_Some. unfold re_match. rewrite run_spec.
  split; [intros (rest & ? & _); eauto|intros (rest & ?); eauto].
Qed.

End ReFacts.

(** ** arxiv utils *)

Module ArxivIdFacts.
Import Str Re ArxivId StrFacts ReFacts.

Lemma cset_mem_chr (c x : ascii) : cset_mem (Chr c) x = true <-> x = c.
Proof. simpl. by destruct (decide (x = c)). Qed.

Lemma strip_version_before (idstr : string) :
  strip_version idstr = Ok (before "v" idstr).
Proof. unfold strip_version, index. by rewrite split_head. Qed.

(** The strings [isvalidid] accepts: those of the form the specification
    describes, and those followed by one newline. *)
Lemma isvalidid_spec (s : string) :
  truthy (isvalidid s) = true <->
  arxiv_form s \/ exists t, s = t +:+ newline /\ arxiv_form t.
Proof.
  unfold isvalidid. rewrite re_match_spec. unfold id_pattern. simpl. split.
  - intros (rest & m1 & [_ ->] & m2 & (a & -> & Ha1 & Ha2) & m3 & (x & -> & Hx)
            & m4 & (b & -> & Hb1 & Hb2) & m5 & Hopt & [Hend ->]).
    apply cset_mem_chr in Hx as ->.
    destruct Hopt as [(m6 & (y & -> & Hy) & (c & -> & Hc1 & Hc2))| ->].
    + apply cset_mem_chr in Hy as ->.
      destruct Hend as [-> | ->].
      * left. exists a, b. repeat split; try done. right. exists c.
        by rewrite sapp_empty_r.
      * right. exists (a +:+ "." +:+ b +:+ "v" +:+ c). split.
        { by rewrite ?sapp_assoc. }
        exists a, b. repeat split; try done. right. by exists c.
    + destruct Hend as [-> | ->].
      * left. exists a, b. repeat split; try done. left. by rewrite sapp_empty_r.
      * right. exists (a +:+ "." +:+ b). split.
        { by rewrite ?sapp_assoc. }
        exists a, b. repeat split; try done. by left.
  - assert (Hform : forall t tail, arxiv_form t -> tail = "" \/ tail = newline ->
      exists rest m1, (String.length (t +:+ tail) = String.length (t +:+ tail) /\ m1 = t +:+ tail) /\
      exists m2, (exists a, m1 = a +:+ m2 /\ a <> "" /\ all is_digit a = true) /\
      exists m3, (exists x, m2 = String x m3 /\ cset_mem (Chr ".") x = true) /\
      exists m4, (exists b, m3 = b +:+ m4 /\ b <> "" /\ all is_digit b = true) /\
      exists m5, ((exists m6, (exists y, m4 = String y m6 /\ cset_mem (Chr "v") y = true) /\
                     exists c, m6 = c +:+ m5 /\ c <> "" /\ all is_digit c = true) \/ m5 = m4) /\
      (m5 = "" \/ m5 = newline) /\ rest = m5).
    { intros t tail (a & b & [Ha1 Ha2] & [Hb1 Hb2] & Hs) Htail.
      exists tail, (t +:+ tail). split; [done|].
      destruct Hs as [-> | (c & [Hc1 Hc2] & ->)].
      - exists ("." +:+ b +:+ tail). split.
        { exists a. by rewrite ?sapp_assoc. }
        exists (b +:+ tail). split; [by exists "."%char|].
        exists tail. split; [by exists b|].
        exists tail. auto.
      - exists ("." +:+ b +:+ "v" +:+ c +:+ tail). split.
        { exists a. by rewrite ?sapp_assoc. }
        exists (b +:+ "v" +:+ c +:+ tail). split; [by exists "."%char|].
        exists ("v" +:+ c +:+ tail). split.
        { exists b. by rewrite ?sapp_assoc. }
        exists tail. split; [|done].
        left. exists (c +:+ tail). split; [by exists "v"%char|by exists c]. }
    intros [Hs | (t & -> & Ht)].
    + specialize (Hform s "" Hs (or_introl eq_refl)).
      by rewrite sapp_empty_r in Hform.
    + apply Hform; auto.
Qed.

Lemma digits_no (c : ascii) (a : string) :
  is_digit c = false -> all is_digit a = true -> mem c a = false.
Proof. apply all_not_mem. Qed.

Lemma arxiv_form_no_newline (s : string) :
  arxiv_form s -> mem "010" s = false.
Proof.
  intros (a & b & [_ Ha] & [_ Hb] & [-> | (c & [_ Hc] & ->)]);
    rewrite ?mem_app; simpl; rewrite ?mem_app; simpl;
    rewrite !(digits_no "010") by done; done.
Qed.

Lemma plain_no_v (a b : string) :
  all is_digit a = true -> all is_digit b = true ->
  mem "v" (a +:+ "." +:+ b) = false.
Proof.
  intros Ha Hb. rewrite mem_app. simpl. by rewrite !(digits_no "v").
Qed.

Lemma versioned_split (a b c : string) :
  a +:+ "." +:+ b +:+ "v" +:+ c = (a +:+ "." +:+ b) +:+ String "v" c.
Proof. by rewrite !sapp_assoc. Qed.

(** Stripping an accepted identifier leaves its [digits.digits] part,
    with the newline when there is no version before it. *)
Lemma before_v_valid (s : string) :
  truthy (isvalidid s) = true -> truthy (isvalidid (before "v" s)) = true.
Proof.
  rewrite !isvalidid_spec.
  intros [(a & b & Ha & Hb & Hs) | (t & -> & a & b & Ha & Hb & Hs)].
  - left. exists a, b. repeat split; try apply Ha; try apply Hb. left.
    destruct Hs as [-> | (c & _ & ->)].
    + apply before_no, plain_no_v; [apply Ha|apply Hb].
    + rewrite (versioned_split a b c).
      apply before_app, plain_no_v; [apply Ha|apply Hb].
  - destruct Hs as [-> | (c & _ & ->)].
    + right. exists (a +:+ "." +:+ b). split.
      * apply before_no. rewrite mem_app, plain_no_v; [done|apply Ha|apply Hb].
      * exists a, b. repeat split; try apply Ha; try apply Hb. by left.
    + left. exists a, b. repeat split; try apply Ha; try apply Hb. left.
      rewrite !sapp_assoc, (versioned_split a b (c +:+ newline)).
      apply before_app, plain_no_v; [apply Ha|apply Hb].
Qed.

(** C6, as stated, fails: an identifier followed by a newline is
    accepted, though it is not of the form [digits.digits[vdigits]] with
    nothing after it. *)
Lemma isvalidid_trailing_newline :
  truthy (isvalidid ("1511.08198" +:+ newline)) = true /\
  ~ arxiv_form ("1511.08198" +:+ newline).
Proof.
  split; [reflexivity|].
  intros H%arxiv_form_no_newline. vm_compute in H. discriminate.
Qed.

(** C6 (amended).  For every string [s], [isvalidid s] is truthy if and
    only if [s] is one or more digits, a dot, one or more digits,
    optionally [v] and one or more digits, and then nothing or one
    newline that ends the string.  ["1511.08198"] and ["1511.08198v1"]
    are accepted, ["abc"] and ["1511.08198v"] are not. *)
Theorem isvalidid_accepts :
  (forall s, truthy (isvalidid s) = true <->
             arxiv_form s \/ exists t, s = t +:+ newline /\ arxiv_form t) /\
  truthy (isvalidid "1511.08198") = true /\
  truthy (isvalidid "1511.08198v1") = true /\
  truthy (isvalidid "abc") = false /\
  truthy (isvalidid "1511.08198v") = false.
Proof. split; [apply isvalidid_spec|]. by vm_compute. Qed.

(** C7.  For every string [idstr], [strip_version idstr] returns the
    prefix of [idstr] before its first [v], and [idstr] itself when it
    has no [v]; ["1511.08198v1"] gives ["1511.08198"], and
    ["1511.08198"] is returned as it is. *)
Theorem strip_version_first_v :
  (forall idstr, exists pre, strip_version idstr = Ok pre /\ stripped_of idstr pre) /\
  strip_version "1511.08198v1" = Ok "1511.08198" /\
  strip_version "1511.08198" = Ok "1511.08198".
Proof.
  split; [|by vm_compute].
  intros idstr. exists (before "v" idstr). split; [apply strip_version_before|].
  destruct (before_split "v" idstr) as (rest & Hs & [-> | (t & ->)]).
  - left. rewrite sapp_empty_r in Hs. rewrite <- Hs. split; [|done].
    rewrite Hs. apply mem_before.
  - right. split; [apply mem_before|]. by exists t.
Qed.

(** C10.  For every string [s] that [isvalidid] accepts,
    [strip_version s] has no [v], is accepted by [isvalidid], and is
    left as it is by [strip_version]. *)
Theorem strip_version_valid_idempotent (s : string) :
  truthy (isvalidid s) = true ->
  exists t, strip_version s = Ok t /\
            mem "v" t = false /\
            truthy (isvalidid t) = true /\
            strip_version t = Ok t.
Proof.
  intros Hs. exists (before "v" s).
  split; [apply strip_version_before|].
  split; [apply mem_before|].
  split; [by apply before_v_valid|].
  rewrite strip_version_before. f_equal. apply before_no, mem_before.
Qed.

(** C10 at ["1511.08198v1"]. *)
Lemma strip_version_valid_idempotent_witness :
  truthy (isvalidid "1511.08198v1") = true /\
  exists t, strip_version "1511.08198v1" = Ok t /\
            mem "v" t = false /\
            truthy (isvalidid t) = true /\
            strip_version t = Ok t.
Proof.
  split; [reflexivity|].
  apply (strip_version_valid_idempotent "1511.08198v1"). reflexivity.
Defined.

(** *** More of the arxiv utils *)

(** X13.  For every string, [strip_version] returns, and what it returns
    is a prefix of the string that has no [v] and that [strip_version]
    leaves as it is. *)
Theorem strip_version_idempotent (s : string) :
  exists t rest, strip_version s = Ok t /\
                 s = t +:+ rest /\
                 mem "v" t = false /\
                 strip_version t = Ok t.
Proof.
  destruct (before_split "v" s) as (rest & Hs & _).
  exists (before "v" s), rest.
  split; [apply strip_version_before|]. split; [done|].
  split; [apply mem_before|].
  rewrite strip_version_before. f_equal. apply before_no, mem_before.
Qed.

Lemma all_mem (p : ascii -> bool) (c : ascii) (s : string) :
  all p s = true -> mem c s = true -> p c = true.
Proof.
  induction s as [|x s IH]; [done|]. simpl.
  intros [Hx Hs]%andb_prop. destruct (decide (x = c)) as [<-|]; auto.
Qed.

Lemma digits_id_char (s : string) : all is_digit s = true -> all id_char s = true.
Proof.
  induction s as [|x s IH]; [done|]. simpl.
  intros [Hx Hs]%andb_prop. unfold id_char at 1. rewrite Hx. simpl. auto.
Qed.

Lemma arxiv_form_id_char (s : string) : arxiv_form s -> all id_char s = true.
Proof.
  intros (a & b & [_ Ha] & [_ Hb] & [-> | (c & [_ Hc] & ->)]);
    rewrite ?all_app; simpl; rewrite ?all_app; simpl;
    by rewrite !digits_id_char.
Qed.

(** X14.  A string with a character that is not a digit, [.], [v] or a
    newline is rejected by [isvalidid]: so are the identifiers of the old
    scheme, which have a [/]. *)
Theorem isvalidid_rejects (s : string) (c : ascii) :
  mem c s = true -> id_char c = false -> isvalidid s = None.
Proof.
  intros Hc Hbad. destruct (isvalidid s) as [m|] eqn:Hm; [|done].
  assert (Hs : truthy (isvalidid s) = true) by by rewrite Hm.
  apply isvalidid_spec in Hs as [Hs | (t & -> & Ht)].
  - apply arxiv_form_id_char in Hs. rewrite (all_mem _ _ _ Hs Hc) in Hbad. done.
  - apply arxiv_form_id_char in Ht.
    assert (Hall : all id_char (t +:+ newline) = true) by by rewrite all_app, Ht.
    rewrite (all_mem _ _ _ Hall Hc) in Hbad. done.
Qed.

(** X14 at an identifier of the old scheme. *)
Lemma isvalidid_rejects_witness :
  mem "/" "hep-th/9901001" = true /\ isvalidid "hep-th/9901001" = None.
Proof.
  split; [reflexivity|].
  apply (isvalidid_rejects "hep-th/9901001" "/"); reflexivity.
Defined.

Lemma many1_value {A} (cs : cset) (k : string -> option A) (s : string) (v : A) :
  many1 cs k s = Some v ->
  exists a rest, s = a +:+ rest /\ a <> "" /\ all (cset_mem cs) a = true /\
                 k rest = Some v.
Proof.
  induction s as [|x t IH]; simpl; [done|].
  destruct (cset_mem cs x) eqn:Hx; [|done].
  destruct (many1 cs k t) as [v'|] eqn:Hmany; simpl.
  - intros [= ->]. destruct IH as (a & rest & -> & _ & Ha & Hk); [done|].
    exists (String x a), rest. simpl. by rewrite Hx.
  - intros Hk. exists (String x ""), t. simpl. by rewrite Hx.
Qed.

(** What the matcher returns is what the rest of the pattern returns
    after a match. *)
Lemma run_value {A} (n : nat) (r : regex) :
  forall (k : string -> option A) (s : string) (v : A),
    run n r k s = Some v ->
    exists rest, matches n r s rest /\ k rest = Some v.
Proof.
  induction r as [| |cs|cs|r1 IH1|r1 IH1 r2 IH2]; intros k s v; simpl.
  - destruct (decide (String.length s = n)); [|done]. by exists s.
  - destruct (decide (s = "" \/ s = newline)); [|done]. by exists s.
  - destruct s as [|x t]; [done|]. destruct (cset_mem cs x) eqn:Hx; [|done].
    intros Hk. exists t. eauto.
  - intros (a & rest & ? & ? & ? & ?)%many1_value. exists rest. eauto.
  - destruct (run n r1 k s) as [v'|] eqn:H1; simpl.
    + intros [= ->]. apply IH1 in H1 as (rest & ? & ?). exists rest. auto.
    + intros Hk. exists s. auto.
  - intros (mid & H1 & (rest & H2 & Hk)%IH2)%IH1. exists rest. eauto.
Qed.

Lemma id_pattern_matches (n : nat) (s rest : string) :
  matches n id_pattern s rest ->
  (rest = "" \/ rest = newline) /\ exists t, s = t +:+ rest /\ arxiv_form t.
Proof.
  unfold id_pattern. simpl.
  intros (m1 & [_ ->] & m2 & (a & -> & Ha1 & Ha2) & m3 & (x & -> & Hx)
          & m4 & (b & -> & Hb1 & Hb2) & m5 & Hopt & [Hend ->]).
  split; [done|]. apply cset_mem_chr in Hx as ->.
  destruct Hopt as [(m6 & (y & -> & Hy) & (c & -> & Hc1 & Hc2))| ->].
  - apply cset_mem_chr in Hy as ->.
    exists (a +:+ "." +:+ b +:+ "v" +:+ c). split; [by rewrite !sapp_assoc|].
    exists a, b. repeat split; try done. right. by exists c.
  - exists (a +:+ "." +:+ b). split; [by rewrite !sapp_assoc|].
    exists a, b. repeat split; try done. by left.
Qed.

Lemma substring_prefix (t rest : string) :
  String.substring 0 (String.length t) (t +:+ rest) = t.
Proof.
  induction t as [|x t IH]; simpl; [by destruct rest|]. by rewrite IH.
Qed.

Lemma length_app_minus (t rest : string) :
  String.length (t +:+ rest) - String.length rest = String.length t.
Proof. rewrite slength_app. lia. Qed.

(** X15.  The match that [isvalidid] returns spans the identifier and not
    the newline after it: when [isvalidid s] is a match, its text is of the
    form [digits.digits], with [vdigits] or without, and [s] is this text,
    or this text and one newline. *)
Theorem isvalidid_match_text (s t : string) :
  isvalidid s = Some t ->
  arxiv_form t /\ (s = t \/ s = t +:+ newline).
Proof.
  unfold isvalidid, re_match.
  intros (rest & Hm & Hk)%run_value.
  apply id_pattern_matches in Hm as (Hrest & t' & -> & Ht').
  rewrite length_app_minus, substring_prefix in Hk. injection Hk as <-.
  split; [done|]. destruct Hrest as [-> | ->]; [left|right]; [|done].
  by rewrite sapp_empty_r.
Qed.

(** X15 at an identifier with a version and a newline. *)
Lemma isvalidid_match_text_witness :
  isvalidid ("1511.08198v1" +:+ newline) = Some "1511.08198v1" /\
  arxiv_form "1511.08198v1".
Proof.
  split; [reflexivity|].
  apply (isvalidid_match_text ("1511.08198v1" +:+ newline) "1511.08198v1").
  reflexivity.
Defined.

End ArxivIdFacts.

(** ** [ConfigFromFile] *)

Module ConfigFacts.
Import Str Cfg Config StrFacts.

Lemma find_no (c : ascii) (s : string) : mem c s = false -> find c s = None.
Proof.
  induction s as [|x s IH]; [done|]. simpl.
  destruct (decide (x = c)); [done|]. intros H. by rewrite IH.
Qed.

(** A value without [%] is returned by the interpolation as it is. *)
Lemma before_get_plain (section option value : string) (d : gmap string string) :
  mem "%" value = false -> before_get section option value d = Ok value.
Proof.
  intros Hv. unfold before_get, MAX_INTERPOLATION_DEPTH.
  change (_interpolate_some 10 option section d "" value)
    with (interpolate_loop (_interpolate_some 9 option section d)
            option section d (S (String.length value)) "" value).
  cbn [interpolate_loop].
  destruct (decide (value = "")) as [->|]; [done|].
  by rewrite find_no.
Qed.

Lemma length_drop (n : nat) (s : string) :
  String.length (drop n s) = String.length s - n.
Proof.
  revert n. induction s as [|x s IH]; intros [|n]; simpl; auto.
Qed.

Lemma keycre_match_shorter (rest name rest' : string) :
  keycre_match rest = Some (name, rest') ->
  String.length rest' < String.length rest.
Proof.
  unfold keycre_match. case_decide as H; [|done].
  intros Heq.
  assert (Hr : rest' = drop (2 + String.length (before ")" (drop 2 rest)) + 2) rest)
    by congruence.
  rewrite Hr, length_drop. destruct H as (H & _).
  destruct rest; [done|]. simpl. lia.
Qed.

(** The loop of [_interpolate_some] ends before its turns run out: any
    number of turns above the length of [rest] gives the same result. *)
Lemma interpolate_loop_turns (nested : string -> string -> result string)
    (opt sec : string) (map : gmap string string) (t1 : nat) :
  forall (t2 : nat) (accum rest : string),
    String.length rest < t1 -> String.length rest < t2 ->
    interpolate_loop nested opt sec map t1 accum rest =
    interpolate_loop nested opt sec map t2 accum rest.
Proof.
  induction t1 as [|t1 IH]; intros [|t2] accum rest H1 H2; try lia.
  cbn [interpolate_loop].
  destruct (decide (rest = "")) as [|Hne]; [done|].
  destruct (find "%" rest) as [p|]; [|done]. cbv zeta.
  assert (Hp : String.length (drop p rest) <= String.length rest)
    by (rewrite length_drop; lia).
  assert (Hpos : 0 < String.length rest) by (destruct rest; [done|simpl; lia]).
  destruct (decide (take 1 (drop 1 (drop p rest)) = "%")).
  { apply IH; rewrite !length_drop; lia. }
  destruct (decide (take 1 (drop 1 (drop p rest)) = "(")); [|done].
  destruct (keycre_match (drop p rest)) as [[name rest']|] eqn:Hm; [|done].
  apply keycre_match_shorter in Hm.
  destruct (map !! optionxform name) as [v|]; [|done].
  destruct (mem "%" v).
  - destruct (nested _ v); [|done]. apply IH; lia.
  - apply IH; lia.
Qed.

(** [%(name)s] is replaced by the value of [name], itself interpolated;
    [%%] gives [%]. *)
Example before_get_nested :
  before_get "s" "a" "%(B)s/x%%"
    {[ "a" := "%(B)s/x%%"; "b" := "%(c)s"; "c" := "/r" ]} = Ok "/r/x%".
Proof. reflexivity. Qed.

Lemma vars_lowercase (k : string) : k ∈ vars_list -> optionxform k = k.
Proof.
  unfold vars_list. rewrite !elem_of_cons, elem_of_nil.
  intros H. repeat (destruct H as [->|H]; [reflexivity|]). done.
Qed.

Lemma get_missing (p : ConfigParser) (sec : gmap string string) (k : string) :
  _sections p !! section_name = Some sec ->
  optionxform k = k ->
  visible p sec !! k = None ->
  get p section_name k = Err (NoOptionError k section_name).
Proof.
  intros Hsec Hk Hv. unfold get, _unify_values. rewrite Hsec, Hk.
  unfold visible in Hv. by rewrite Hv.
Qed.

Lemma get_plain (p : ConfigParser) (sec : gmap string string) (k v : string) :
  _sections p !! section_name = Some sec ->
  optionxform k = k ->
  visible p sec !! k = Some v ->
  mem "%" v = false ->
  get p section_name k = Ok v.
Proof.
  intros Hsec Hk Hv Hplain. unfold get, _unify_values. rewrite Hsec, Hk.
  unfold visible in Hv. rewrite Hv. by apply before_get_plain.
Qed.

(** The loop of [_populate_vars] when every [get] returns. *)
Lemma populate_ok (vals : string -> string) (vars : list string) :
  forall self,
    (forall k, k ∈ vars -> get (parser self) section_name k = Ok (vals k)) ->
    exists c, populate vars self = Ok c /\
              parser c = parser self /\
              (forall k, k ∈ vars -> attrs c !! k = Some (vals k)) /\
              (forall k, k ∉ vars -> attrs c !! k = attrs self !! k).
Proof.
  induction vars as [|var vars IH]; intros self Hget; simpl.
  - exists self. repeat split; try done. intros k Hk. by apply elem_of_nil in Hk.
  - rewrite Hget by apply list_elem_of_here.
    destruct (IH (setattr self var (vals var))) as (c & Hc & Hp & Hin & Hout).
    { intros k Hk. simpl. by apply Hget, list_elem_of_further. }
    exists c. split; [done|]. split; [done|]. split.
    + intros k Hk. destruct (decide (k ∈ vars)) as [|Hnot]; [by apply Hin|].
      apply elem_of_cons in Hk as [->|]; [|done].
      rewrite Hout by done. simpl. apply lookup_insert_eq.
    + intros k Hk. apply not_elem_of_cons in Hk as [Hne Hk].
      rewrite Hout by done. simpl. by apply lookup_insert_ne.
Qed.

(** The loop stops at the first key whose [get] raises. *)
Lemma populate_err (vals : string -> string) (e : exn) (k : string)
    (done_ rest : list string) :
  forall self,
    (forall j, j ∈ done_ -> get (parser self) section_name j = Ok (vals j)) ->
    get (parser self) section_name k = Err e ->
    populate (done_ ++ k :: rest) self = Err e.
Proof.
  induction done_ as [|var done_ IH]; intros self Hget Hk; simpl.
  - by rewrite Hk.
  - rewrite Hget by apply list_elem_of_here.
    apply IH; [|done]. intros j Hj. simpl. by apply Hget, list_elem_of_further.
Qed.

Lemma init_no_section (files : cfg_files) (path : string) :
  has_section (read files path new_parser) section_name = false ->
  __init__ files path = Err (ValueError (no_section_msg path)).
Proof. intros H. unfold __init__, _check_config. simpl. by rewrite H. Qed.

Lemma init_section (files : cfg_files) (path : string) (sec : gmap string string) :
  _sections (read files path new_parser) !! section_name = Some sec ->
  __init__ files path =
  populate vars_list {| config_file := path;
                        parser := read files path new_parser;
                        attrs := ∅ |}.
Proof.
  intros H. unfold __init__, _check_config, has_section. simpl.
  rewrite H. by rewrite bool_decide_eq_true_2.
Qed.

Lemma has_section_false (p : ConfigParser) :
  _sections p !! section_name = None -> has_section p section_name = false.
Proof.
  intros H. unfold has_section. rewrite H.
  apply bool_decide_eq_false_2. by intros [? ?].
Qed.

Lemma read_present (files : cfg_files) (path : string) (ini : ConfigParser) :
  files !! path = Some ini -> read files path new_parser = ini.
Proof. intros H. unfold read. by rewrite H. Qed.


(** The first key of [vars] that [m] lacks. *)
Lemma first_missing (m : gmap string string) (vars : list string) :
  (exists k, k ∈ vars /\ m !! k = None) ->
  exists done_ k rest, vars = done_ ++ k :: rest /\ m !! k = None /\
                       forall j, j ∈ done_ -> is_Some (m !! j).
Proof.
  induction vars as [|var vars IH]; intros (k & Hk & Hm).
  - by apply elem_of_nil in Hk.
  - destruct (m !! var) as [v|] eqn:Hvar.
    + apply elem_of_cons in Hk as [->|Hk]; [congruence|].
      destruct IH as (done_ & k' & rest & -> & Hk' & Hdone); [by exists k|].
      exists (var :: done_), k', rest. split; [done|]. split; [done|].
      intros j [->|Hj]%elem_of_cons; [by exists v|by apply Hdone].
    + exists [], var, vars. split; [done|]. split; [done|].
      intros j Hj. by apply elem_of_nil in Hj.
Qed.

Ltac each_var H :=
  unfold vars_list in H; rewrite !elem_of_cons, elem_of_nil in H;
  repeat (destruct H as [->|H]; [vm_compute; eauto|]); try done.

Lemma plain_section_full (k : string) :
  k ∈ vars_list -> exists v, plain_section !! k = Some v /\ mem "%" v = false.
Proof. intros H. each_var H. Qed.

Lemma reference_section_full (k : string) :
  k ∈ vars_list -> is_Some (reference_section !! k).
Proof. intros H. each_var H. Qed.

Lemma percent_section_full (k : string) :
  k ∈ vars_list -> is_Some (percent_section !! k).
Proof. intros H. each_var H. Qed.

(** C4, as stated, fails: with every required key present,
    [db_path = %(data_root)s/db.p] is loaded as [/data/data_root/db.p],
    the value of [data_root] put in place of the reference. *)
Lemma init_interpolates_reference :
  reference_files !! cfg = Some (with_section reference_section ∅) /\
  (forall k, k ∈ vars_list -> is_Some (reference_section !! k)) /\
  reference_section !! "db_path" = Some "%(data_root)s/db.p" /\
  exists c, __init__ reference_files cfg = Ok c /\
            attrs c !! "db_path" = Some "/data/data_root/db.p".
Proof.
  split; [reflexivity|]. split; [apply reference_section_full|].
  split; [reflexivity|].
  eexists. split; [vm_compute; reflexivity|]. vm_compute. reflexivity.
Qed.

(** C4 (amended).  For every config file that has the [[arxiv-sanity]]
    section with all 15 required keys, none of whose values contains
    [%], constructing the configuration object succeeds and the
    attribute under each required key is the string the file gives for
    it, as it is. *)
Theorem init_verbatim (files : cfg_files) (path : string) (ini : ConfigParser)
    (sec : gmap string string) :
  files !! path = Some ini ->
  _sections ini !! section_name = Some sec ->
  (forall k, k ∈ vars_list -> exists v, sec !! k = Some v /\ mem "%" v = false) ->
  exists c, __init__ files path = Ok c /\
            forall k, k ∈ vars_list -> attrs c !! k = sec !! k.
Proof.
  intros Hfile Hsec Hfull.
  rewrite (init_section files path sec) by by rewrite (read_present _ _ ini).
  rewrite (read_present _ _ ini) by done.
  destruct (populate_ok (fun k => default "" (sec !! k)) vars_list
              {| config_file := path; parser := ini; attrs := ∅ |})
    as (c & Hc & _ & Hin & _).
  { intros k Hk. simpl. destruct (Hfull k Hk) as (v & Hv & Hplain).
    rewrite Hv. simpl. apply (get_plain ini sec); auto using vars_lowercase.
    unfold visible. by apply lookup_union_Some_l. }
  exists c. split; [done|]. intros k Hk. rewrite Hin by done.
  destruct (Hfull k Hk) as (v & -> & _). done.
Qed.

(** C4 (amended) at [plain_files]. *)
Lemma init_verbatim_witness :
  plain_files !! cfg = Some (with_section plain_section ∅) /\
  exists c, __init__ plain_files cfg = Ok c /\
            forall k, k ∈ vars_list -> attrs c !! k = plain_section !! k.
Proof.
  split; [reflexivity|].
  apply (init_verbatim plain_files cfg (with_section plain_section ∅) plain_section).
  - reflexivity.
  - reflexivity.
  - apply plain_section_full.
Defined.

(** C5, as stated, fails on both sides: a required key that the section
    lacks and [[DEFAULT]] gives does not make loading raise, and a file
    with every required key makes it raise when a value has a [%] that
    starts no reference. *)
Lemma init_default_and_percent :
  (short_section !! "tmp_dir" = None /\
   exists c, __init__ short_files cfg = Ok c /\ attrs c !! "tmp_dir" = Some "/tmp") /\
  ((forall k, k ∈ vars_list -> is_Some (percent_section !! k)) /\
   __init__ percent_files cfg =
   Err (InterpolationSyntaxError "beg_for_hosting_money" "arxiv-sanity")).
Proof.
  split; split.
  - reflexivity.
  - eexists. split; [vm_compute; reflexivity|]. vm_compute. reflexivity.
  - apply percent_section_full.
  - vm_compute. reflexivity.
Qed.

(** C5 (amended).  Loading raises the configuration error
    ([ValueError]) when the parsed file has no [[arxiv-sanity]] section.
    When the section is there and no value a required key can see, in
    the section or in [[DEFAULT]], contains [%]: loading raises the
    missing-key error ([NoOptionError]) when a required key is in neither
    the section nor [[DEFAULT]], and in every other case it does not
    raise. *)
Theorem init_raises (files : cfg_files) (path : string) (p : ConfigParser) :
  p = read files path new_parser ->
  (_sections p !! section_name = None ->
   __init__ files path = Err (ValueError (no_section_msg path))) /\
  (forall sec,
     _sections p !! section_name = Some sec ->
     (forall k v, k ∈ vars_list -> visible p sec !! k = Some v -> mem "%" v = false) ->
     ((exists k, k ∈ vars_list /\ visible p sec !! k = None) ->
      exists k, k ∈ vars_list /\ visible p sec !! k = None /\
                __init__ files path = Err (NoOptionError k section_name)) /\
     ((forall k, k ∈ vars_list -> is_Some (visible p sec !! k)) ->
      exists c, __init__ files path = Ok c)).
Proof.
  intros ->. split.
  { intros H. by apply init_no_section, has_section_false. }
  intros sec Hsec Hplain.
  rewrite (init_section files path sec) by done.
  set (p := read files path new_parser) in *.
  set (vals := fun k => default "" (visible p sec !! k)).
  assert (Hget : forall k, k ∈ vars_list -> is_Some (visible p sec !! k) ->
                           get p section_name k = Ok (vals k)).
  { intros k Hk [v Hv]. unfold vals. rewrite Hv. simpl.
    apply (get_plain p sec); eauto using vars_lowercase. }
  split.
  - intros (done_ & k & rest & Hsplit & Hk & Hdone)%first_missing.
    assert (Hin : forall j, j ∈ done_ ++ k :: rest -> j ∈ vars_list)
      by (intros j; by rewrite Hsplit).
    exists k. split; [apply Hin, elem_of_app; right; apply list_elem_of_here|].
    split; [done|]. rewrite Hsplit.
    apply (populate_err vals).
    + intros j Hj. simpl. apply Hget; [|by apply Hdone].
      apply Hin, elem_of_app. by left.
    + simpl. apply (get_missing p sec); [done| |done].
      apply vars_lowercase, Hin, elem_of_app. right. apply list_elem_of_here.
  - intros Hall.
    destruct (populate_ok vals vars_list
                {| config_file := path; parser := p; attrs := ∅ |})
      as (c & Hc & _); [|by exists c].
    intros k Hk. simpl. by apply Hget, Hall.
Qed.

(** C5 (amended) at [plain_files]: every key is there, loading returns. *)
Lemma init_raises_witness :
  with_section plain_section ∅ = read plain_files cfg new_parser /\
  exists c, __init__ plain_files cfg = Ok c.
Proof.
  split; [reflexivity|].
  destruct (init_raises plain_files cfg (with_section plain_section ∅) eq_refl)
    as [_ H].
  destruct (H plain_section eq_refl) as [_ Hok].
  - intros k v Hk Hv. destruct (plain_section_full k Hk) as (v' & Hv' & Hplain).
    unfold visible in Hv. simpl in Hv.
    rewrite (lookup_union_Some_l _ _ _ _ Hv') in Hv. congruence.
  - apply Hok. intros k Hk. destruct (plain_section_full k Hk) as (v & Hv & _).
    exists v. unfold visible. by apply lookup_union_Some_l.
Defined.



(** *** More of [ConfigFromFile] *)

(** What a run of the loop of [_populate_vars] that returns has done. *)
Lemma populate_inv (vars : list string) :
  forall self c,
    populate vars self = Ok c ->
    parser c = parser self /\
    config_file c = config_file self /\
    (forall k, k ∈ vars ->
       exists v, get (parser self) section_name k = Ok v /\ attrs c !! k = Some v) /\
    (forall k, k ∉ vars -> attrs c !! k = attrs self !! k).
Proof.
  induction vars as [|var vars IH]; intros self c; simpl.
  - intros [= <-]. repeat split; try done. intros k Hk. by apply elem_of_nil in Hk.
  - destruct (get (parser self) section_name var) as [val|] eqn:Hget; [|done].
    intros (Hp & Hf & Hin & Hout)%IH. simpl in *.
    split; [done|]. split; [done|]. split.
    + intros k Hk. destruct (decide (k ∈ vars)) as [|Hnot]; [by apply Hin|].
      apply elem_of_cons in Hk as [->|]; [|done].
      exists val. split; [done|]. rewrite Hout by done. apply lookup_insert_eq.
    + intros k [Hne Hk]%not_elem_of_cons.
      rewrite Hout by done. by apply lookup_insert_ne.
Qed.

Ltac in_vars := apply (bool_decide_unpack _); vm_compute; exact I.

Lemma init_unfold (files : cfg_files) (path : string) :
  __init__ files path =
  if has_section (read files path new_parser) section_name
  then populate vars_list {| config_file := path;
                             parser := read files path new_parser;
                             attrs := ∅ |}
  else Err (ValueError (no_section_msg path)).
Proof.
  unfold __init__, _check_config, _populate_vars. cbn [parser config_file].
  by destruct (has_section _ _).
Qed.

(** X9.  What a constructed object holds: when [ConfigFromFile(path)]
    returns an object, its [config_file] is [path], its [parser] is the
    parser that read the file, the section is there, and its other
    attributes are exactly the required keys, each with the value that
    [parser.get] returns for it: an option of the file that is not a
    required key gives no attribute. *)
Theorem init_attributes (files : cfg_files) (path : string) (c : ConfigFromFile) :
  __init__ files path = Ok c ->
  config_file c = path /\
  parser c = read files path new_parser /\
  has_section (parser c) section_name = true /\
  forall k v, attrs c !! k = Some v <->
              k ∈ vars_list /\ get (parser c) section_name k = Ok v.
Proof.
  rewrite init_unfold.
  destruct (has_section (read files path new_parser) section_name) eqn:Hsec;
    [|done].
  intros (Hp & Hf & Hin & Hout)%populate_inv. cbn [parser config_file attrs] in *.
  rewrite Hp. split; [done|]. split; [done|]. split; [done|].
  intros k v. split.
  - intros Hk. destruct (decide (k ∈ vars_list)) as [Hmem|Hnot].
    + destruct (Hin k Hmem) as (v' & Hget & Hattr). split; [done|]. congruence.
    + rewrite Hout in Hk by done. by rewrite lookup_empty in Hk.
  - intros [Hmem Hget]. destruct (Hin k Hmem) as (v' & Hget' & Hattr). congruence.
Qed.

(** X9 at [reference_files]: [db_path] is there with its interpolated
    value, and nothing is there under a name that is not a required key. *)
Lemma init_attributes_witness :
  exists c, __init__ reference_files cfg = Ok c /\
            config_file c = cfg /\
            attrs c !! "db_path" = Some "/data/data_root/db.p" /\
            attrs c !! "parser" = None.
Proof.
  destruct (__init__ reference_files cfg) as [c|] eqn:Hc; [|by vm_compute in Hc].
  exists c. split; [done|].
  destruct (init_attributes reference_files cfg c Hc) as (Hf & Hp & _ & Hattrs).
  split; [done|]. split.
  - apply Hattrs. split; [in_vars|]. rewrite Hp. by vm_compute.
  - destruct (attrs c !! "parser") as [v|] eqn:Hv; [|done].
    apply Hattrs in Hv as [Hmem _].
    apply (bool_decide_pack _) in Hmem. by vm_compute in Hmem.
Defined.

(** X10.  The first error wins: when the section is there, the keys
    before [k] in the list of required keys are returned by [parser.get],
    and [parser.get] raises [e] for [k], the constructor raises [e],
    whatever the file gives for the keys after [k]. *)
Theorem init_first_error (files : cfg_files) (path : string) (k : string) (e : exn)
    (earlier later : list string) :
  has_section (read files path new_parser) section_name = true ->
  vars_list = earlier ++ k :: later ->
  (forall j, j ∈ earlier ->
     exists v, get (read files path new_parser) section_name j = Ok v) ->
  get (read files path new_parser) section_name k = Err e ->
  __init__ files path = Err e.
Proof.
  intros Hsec Hsplit Hearlier Hk.
  rewrite init_unfold, Hsec, Hsplit.
  apply (populate_err
           (fun j => match get (read files path new_parser) section_name j with
                     | Ok v => v
                     | Err _ => ""
                     end)); [|done].
  intros j Hj. simpl. by destruct (Hearlier j Hj) as (v & ->).
Qed.

(** X10 at [percent_files]: the twelve keys before
    [beg_for_hosting_money] are read, and its [100%] raises. *)
Lemma init_first_error_witness :
  __init__ percent_files cfg =
  Err (InterpolationSyntaxError "beg_for_hosting_money" "arxiv-sanity").
Proof.
  apply (init_first_error percent_files cfg "beg_for_hosting_money"
           (InterpolationSyntaxError "beg_for_hosting_money" "arxiv-sanity")
           (firstn 12 vars_list) (skipn 13 vars_list)).
  - by vm_compute.
  - reflexivity.
  - intros j Hj. simpl in Hj. rewrite !elem_of_cons, elem_of_nil in Hj.
    repeat (destruct Hj as [->|Hj]; [eexists; by vm_compute|]). done.
  - by vm_compute.
Defined.

(** X11.  Defaults: for a file that has the section, in which every
    required key is given in the section or in [[DEFAULT]] with a value
    that has no [%], the constructor returns, and the attribute of each
    required key is the value the section gives it, and the value
    [[DEFAULT]] gives it when the section gives none. *)
Theorem init_default_fallback (files : cfg_files) (path : string)
    (ini : ConfigParser) (sec : gmap string string) :
  files !! path = Some ini ->
  _sections ini !! section_name = Some sec ->
  (forall k, k ∈ vars_list ->
     exists v, visible ini sec !! k = Some v /\ mem "%" v = false) ->
  exists c, __init__ files path = Ok c /\
            forall k, k ∈ vars_list ->
              attrs c !! k = match sec !! k with
                             | Some v => Some v
                             | None => _defaults ini !! k
                             end.
Proof.
  intros Hfile Hsec Hfull.
  rewrite (init_section files path sec) by by rewrite (read_present _ _ ini).
  rewrite (read_present _ _ ini) by done.
  destruct (populate_ok (fun k => default "" (visible ini sec !! k)) vars_list
              {| config_file := path; parser := ini; attrs := ∅ |})
    as (c & Hc & _ & Hin & _).
  { intros k Hk. simpl. destruct (Hfull k Hk) as (v & Hv & Hplain).
    rewrite Hv. simpl. apply (get_plain ini sec); auto using vars_lowercase. }
  exists c. split; [done|]. intros k Hk. rewrite Hin by done.
  destruct (Hfull k Hk) as (v & Hv & _). rewrite Hv. simpl.
  unfold visible in Hv. rewrite lookup_union in Hv.
  destruct (sec !! k) as [v1|], (_defaults ini !! k) as [v2|]; cbv in Hv; congruence.
Qed.

(** X11 at [short_files]: [tmp_dir] comes from [[DEFAULT]], [db_path]
    from the section. *)
Lemma init_default_fallback_witness :
  exists c, __init__ short_files cfg = Ok c /\
            attrs c !! "tmp_dir" = Some "/tmp" /\
            attrs c !! "db_path" = Some "/data/db_path".
Proof.
  destruct (init_default_fallback short_files cfg
              (with_section short_section tmp_default) short_section)
    as (c & Hc & Hattrs).
  - reflexivity.
  - reflexivity.
  - intros k Hk. each_var Hk.
  - exists c. split; [done|]. split.
    + rewrite Hattrs by in_vars. reflexivity.
    + rewrite Hattrs by in_vars. reflexivity.
Defined.

(** *** Interpolation of a reference *)

Lemma find_first (c : ascii) (s t : string) :
  mem c s = false -> find c (s +:+ String c t) = Some (String.length s).
Proof.
  induction s as [|x s IH]; simpl.
  - intros _. by rewrite decide_True.
  - destruct (decide (x = c)); [done|]. intros H. by rewrite IH.
Qed.

Lemma take_app_length (s t : string) : take (String.length s) (s +:+ t) = s.
Proof. induction s as [|x s IH]; simpl; [by destruct t|]. by rewrite IH. Qed.

Lemma drop_app_length (s t : string) (n : nat) :
  drop (String.length s + n) (s +:+ t) = drop n t.
Proof. induction s as [|x s IH]; simpl; [done|]. by rewrite IH. Qed.

Lemma drop_app_exact (s t : string) : drop (String.length s) (s +:+ t) = t.
Proof. by rewrite <- (Nat.add_0_r (String.length s)), drop_app_length. Qed.

Lemma keycre_match_reference (name post : string) :
  name <> "" -> mem ")" name = false ->
  keycre_match (String "%" (String "(" (name +:+ String ")" (String "s" post))))
  = Some (name, post).
Proof.
  intros Hne Hname. unfold keycre_match.
  cbn [drop Nat.add].
  rewrite before_app by done.
  rewrite drop_app_exact, drop_app_length. cbn [drop take].
  by rewrite decide_True.
Qed.

(** A value with one reference, to an option whose value has no [%]. *)
Lemma before_get_reference (section option pre name post v : string)
    (d : gmap string string) :
  mem "%" pre = false -> mem "%" post = false ->
  name <> "" -> mem ")" name = false ->
  d !! optionxform name = Some v -> mem "%" v = false ->
  before_get section option (pre +:+ "%(" +:+ name +:+ ")s" +:+ post) d
  = Ok (pre +:+ v +:+ post).
Proof.
  intros Hpre Hpost Hne Hname Hv Hplain.
  change (pre +:+ "%(" +:+ name +:+ ")s" +:+ post)
    with (pre +:+ String "%" (String "(" (name +:+ String ")" (String "s" post)))).
  set (t := String "(" (name +:+ String ")" (String "s" post))).
  unfold before_get, MAX_INTERPOLATION_DEPTH.
  change (_interpolate_some 10 option section d "" (pre +:+ String "%" t))
    with (interpolate_loop (_interpolate_some 9 option section d)
            option section d (S (String.length (pre +:+ String "%" t))) ""
            (pre +:+ String "%" t)).
  cbn [interpolate_loop].
  rewrite decide_False by (intros [_ ?]%sapp_eq_empty; done).
  rewrite find_first by done. cbv zeta.
  rewrite take_app_length, drop_app_exact.
  unfold t. cbn [drop take].
  rewrite decide_False by done. rewrite decide_True by done.
  rewrite keycre_match_reference by done.
  rewrite Hv, Hplain.
  rewrite (interpolate_loop_turns _ _ _ _ _ (S (String.length post))).
  - cbn [interpolate_loop].
    destruct (decide (post = "")) as [->|]; [by rewrite sapp_empty_r|].
    rewrite find_no by done. by rewrite sapp_assoc.
  - rewrite !slength_app. simpl. rewrite slength_app. simpl. lia.
  - lia.
Qed.

(** X12.  A reference in a value: for a file that has the section, when
    the value of a required key [k0] is [pre%(name)spost] with no other
    [%], the option [name] (in lower case) is given in the section or in
    [[DEFAULT]] with a value [v] that has no [%], and the values of the
    other required keys have no [%], the constructor returns and the
    attribute of [k0] is [pre], [v] and [post] put together. *)
Theorem init_reference (files : cfg_files) (path : string) (ini : ConfigParser)
    (sec : gmap string string) (k0 pre name post v : string) :
  files !! path = Some ini ->
  _sections ini !! section_name = Some sec ->
  k0 ∈ vars_list ->
  visible ini sec !! k0 = Some (pre +:+ "%(" +:+ name +:+ ")s" +:+ post) ->
  mem "%" pre = false -> mem "%" post = false ->
  name <> "" -> mem ")" name = false ->
  visible ini sec !! optionxform name = Some v -> mem "%" v = false ->
  (forall k, k ∈ vars_list -> k <> k0 ->
     exists u, visible ini sec !! k = Some u /\ mem "%" u = false) ->
  exists c, __init__ files path = Ok c /\
            attrs c !! k0 = Some (pre +:+ v +:+ post).
Proof.
  intros Hfile Hsec Hk0 Hval Hpre Hpost Hne Hname Hv Hplain Hothers.
  rewrite (init_section files path sec) by by rewrite (read_present _ _ ini).
  rewrite (read_present _ _ ini) by done.
  destruct (populate_ok
              (fun k => if decide (k = k0) then pre +:+ v +:+ post
                        else default "" (visible ini sec !! k))
              vars_list {| config_file := path; parser := ini; attrs := ∅ |})
    as (c & Hc & _ & Hin & _).
  { intros k Hk. cbn [parser]. destruct (decide (k = k0)) as [->|Hk'].
    - unfold get, _unify_values. rewrite Hsec, (vars_lowercase k0) by done.
      unfold visible in Hval, Hv. rewrite Hval.
      by apply before_get_reference.
    - destruct (Hothers k Hk Hk') as (u & Hu & Hplain').
      rewrite Hu. simpl. apply (get_plain ini sec); auto using vars_lowercase. }
  exists c. split; [done|]. rewrite Hin by done. by rewrite decide_True.
Qed.

(** X12 at [reference_files]: [db_path = %(data_root)s/db.p]. *)
Lemma init_reference_witness :
  exists c, __init__ reference_files cfg = Ok c /\
            attrs c !! "db_path" = Some "/data/data_root/db.p".
Proof.
  apply (init_reference reference_files cfg (with_section reference_section ∅)
           reference_section "db_path" "" "data_root" "/db.p" "/data/data_root").
  - reflexivity.
  - reflexivity.
  - in_vars.
  - reflexivity.
  - reflexivity.
  - reflexivity.
  - done.
  - reflexivity.
  - reflexivity.
  - reflexivity.
  - intros k Hk Hne. each_var Hk.
Defined.

End ConfigFacts.

(** ** The file system calls *)

Module OsFacts.
Import Str Os StrFacts.

Lemma renames_app (l1 l2 : list event) :
  renames (l1 ++ l2) = renames l1 ++ renames l2.
Proof.
  induction l1 as [|e l1 IH]; [done|]. destruct e; simpl; by rewrite ?IH.
Qed.

Lemma fsyncs_app (l1 l2 : list event) :
  fsyncs (l1 ++ l2) = fsyncs l1 ++ fsyncs l2.
Proof.
  induction l1 as [|e l1 IH]; [done|]. destruct e; simpl; by rewrite ?IH.
Qed.

Lemma holding_emit (tmp : string) (d : list byte) (w wX : world) (e : event) :
  quiet e -> holding tmp d w wX -> holding tmp d w (emit e wX).
Proof.
  intros [Hr Hf] (Hfs & Hren & Hsync). unfold holding, emit. simpl.
  rewrite renames_app, fsyncs_app, Hr, Hf, !app_nil_r. done.
Qed.

Lemma holding_set (tmp : string) (d d' : list byte) (w wX : world) :
  holding tmp d w wX ->
  holding tmp d' w (set_fs (<[tmp := File d']> (fs wX)) wX).
Proof.
  intros (Hfs & Hren & Hsync). unfold holding, set_fs. simpl.
  rewrite Hfs, insert_insert_eq. done.
Qed.

Lemma holding_lookup (tmp : string) (d : list byte) (w wX : world) :
  holding tmp d w wX -> fs wX !! tmp = Some (File d).
Proof. intros (Hfs & _). rewrite Hfs. apply lookup_insert_eq. Qed.

(** *** [mkstemp] *)

(** One turn of the loop. *)
Lemma _mkstemp_inner_S (dir : string) (n : nat) (w : world) :
  _mkstemp_inner dir (S n) w =
    let file := join dir (template +:+ rand_name (draws w 0)) in
    let w' := emit (EvCreate file) (next_draw w) in
    match dir_exists (fs w) dir with
    | Err e => (Err e, w')
    | Ok _ =>
        match fs w !! file with
        | Some _ => _mkstemp_inner dir n w'
        | None => (Ok (Fd file, file), set_fs (<[file := File []]> (fs w)) w')
        end
    end.
Proof. reflexivity. Qed.

Lemma _mkstemp_inner_ok (dir : string) (attempts : nat) :
  forall (w w1 : world) (d : fd) (tmp : string),
    _mkstemp_inner dir attempts w = (Ok (d, tmp), w1) ->
    d = Fd tmp /\ fs w !! tmp = None /\ holding tmp [] w w1 /\
    dir_exists (fs w) dir = Ok tt /\
    exists c, tmp = join dir (template +:+ rand_name c).
Proof.
  induction attempts as [|n IH]; intros w w1 d tmp; [done|].
  rewrite _mkstemp_inner_S. cbv zeta.
  destruct (dir_exists (fs w) dir) as [[]|] eqn:Hdir; [|done].
  destruct (fs w !! join dir (template +:+ rand_name (draws w 0))) eqn:Hfree.
  - intros H. apply IH in H as (-> & Hnone & (Hfs & Hren & Hsync) & _ & Hc).
    simpl in *. repeat split; try done.
    + by rewrite renames_app, app_nil_r in Hren.
    + by rewrite fsyncs_app, app_nil_r in Hsync.
  - intros [= <- <- <-]. repeat split; simpl; eauto.
    + by rewrite renames_app, app_nil_r.
    + by rewrite fsyncs_app, app_nil_r.
Qed.

Lemma mkstemp_ok (dir : string) (w w1 : world) (d : fd) (tmp : string) :
  mkstemp dir w = (Ok (d, tmp), w1) ->
  d = Fd tmp /\ fs w !! tmp = None /\ holding tmp [] w w1 /\
  dir_exists (fs w) dir = Ok tt /\
  exists c, tmp = join dir (template +:+ rand_name c).
Proof. apply _mkstemp_inner_ok. Qed.



(** When the walk down to [dir] fails, [mkstemp] raises at its first
    attempt. *)
Lemma mkstemp_no_dir (dir : string) (w : world) (e : exn) :
  dir_exists (fs w) dir = Err e ->
  mkstemp dir w =
    (Err e, emit (EvCreate (join dir (template +:+ rand_name (draws w 0))))
              (next_draw w)).
Proof.
  intros Hdir. unfold mkstemp, TMP_MAX. rewrite _mkstemp_inner_S. cbv zeta.
  by rewrite Hdir.
Qed.

(** *** The walk down to a directory *)

Lemma all_dirs_insert (m : gmap string node) (l : list string) (tmp : string)
    (n : node) :
  all_dirs m l = Ok tt -> m !! tmp = None -> all_dirs (<[tmp := n]> m) l = Ok tt.
Proof.
  intros Hl Htmp. induction l as [|p l IH]; [done|]. simpl in *.
  unfold is_dir in *. destruct (decide (p = tmp)) as [->|Hne].
  - by rewrite Htmp in Hl.
  - rewrite lookup_insert_ne by done.
    destruct (m !! p) as [[|]|]; try done. by apply IH.
Qed.

Lemma dir_exists_insert (m : gmap string node) (dir tmp : string) (n : node) :
  dir_exists m dir = Ok tt -> m !! tmp = None ->
  dir_exists (<[tmp := n]> m) dir = Ok tt.
Proof. apply all_dirs_insert. Qed.

(** The errors of the walk. *)
Lemma all_dirs_error (m : gmap string node) (l : list string) (e : exn) :
  all_dirs m l = Err e -> e = OSError ENOENT \/ e = OSError ENOTDIR.
Proof.
  induction l as [|p l IH]; [done|]. simpl. unfold is_dir.
  destruct (m !! p) as [[|]|]; [|done|]; intros [= <-]; auto.
Qed.

Lemma dir_exists_error (m : gmap string node) (dir : string) (e : exn) :
  dir_exists m dir = Err e -> e = OSError ENOENT \/ e = OSError ENOTDIR.
Proof. apply all_dirs_error. Qed.

(** *** [open] on the temporary file *)

Lemma py_open_holding (tmp : string) (m : fmode) (w wX : world) :
  holding tmp [] w wX -> mkind m <> X ->
  exists wY, py_open tmp m wX = (Ok {| name := tmp; mode := m |}, wY) /\
             holding tmp [] w wY.
Proof.
  intros H Hm. unfold py_open.
  assert (H' : holding tmp [] w (emit (EvOpen tmp) wX)) by by apply holding_emit.
  rewrite (holding_lookup _ _ _ _ H').
  destruct (mkind m); try done; eexists; (split; [reflexivity|]); try done.
  by apply (holding_set tmp [] [] w).
Qed.

End OsFacts.

(** ** Paths *)

Module PathFacts.
Import Str Os StrFacts.

Lemma rfind_no (c : ascii) (s : string) : mem c s = false -> rfind c s = None.
Proof.
  induction s as [|x s IH]; [done|]. simpl.
  destruct (decide (x = c)); [done|]. intros H. by rewrite IH.
Qed.

Lemma rfind_last (c : ascii) (a b : string) :
  mem c b = false -> rfind c (a +:+ String c b) = Some (String.length a).
Proof.
  intros Hb. induction a as [|x a IH]; simpl.
  - by rewrite rfind_no, decide_True.
  - by rewrite IH.
Qed.

Lemma take_past (a s : string) (n : nat) :
  take (String.length a + n) (a +:+ s) = a +:+ take n s.
Proof. induction a as [|x a IH]; simpl; [done|]. by rewrite IH. Qed.

(** [p[:p.rfind(c) + 1]] when the last [c] of [p] is known. *)
Lemma head_last (c : ascii) (a b : string) :
  mem c b = false ->
  take (match rfind c (a +:+ String c b) with Some j => S j | None => 0 end)
       (a +:+ String c b) = a +:+ String c "".
Proof.
  intros Hb. rewrite rfind_last by done.
  rewrite <- Nat.add_1_r, take_past. done.
Qed.

Lemma endswith_rstrip (c : ascii) (s : string) : endswith c (rstrip c s) = false.
Proof.
  induction s as [|x s IH]; [done|]. simpl.
  destruct (rstrip c s) as [|y t].
  - destruct (decide (x = c)); [done|]. simpl. by rewrite decide_False.
  - done.
Qed.

Lemma rstrip_keeps (s : string) :
  all is_sep s = false ->
  rstrip "/" s <> "" /\ all is_sep (rstrip "/" s) = false.
Proof.
  induction s as [|x s IH]; [done|]. simpl.
  unfold is_sep at 1. destruct (decide (x = "/"%char)) as [->|Hx]; simpl.
  - intros [Hne Hall]%IH. destruct (rstrip "/" s); [done|].
    split; [done|]. simpl in *. done.
  - intros _. destruct (rstrip "/" s); simpl; unfold is_sep at 1;
      rewrite decide_False by done; done.
Qed.

Lemma rstrip_snoc (c : ascii) (s : string) :
  rstrip c (s +:+ String c "") = rstrip c s.
Proof.
  induction s as [|x s IH]; simpl.
  - by rewrite decide_True.
  - by rewrite IH.
Qed.

Lemma rstrip_id (c : ascii) (s : string) :
  endswith c s = false -> rstrip c s = s.
Proof.
  induction s as [|x s IH]; [done|]. simpl.
  destruct s as [|y t].
  - simpl. by destruct (decide (x = c)).
  - intros H. by rewrite IH.
Qed.

Lemma all_sep_endswith (s : string) :
  s <> "" -> all is_sep s = true -> endswith "/" s = true.
Proof.
  induction s as [|x s IH]; [done|]. intros _. simpl.
  unfold is_sep at 1. destruct (decide (x = "/"%char)) as [->|]; [|done]. simpl.
  destruct s as [|y t]; [done|]. intros H. by apply IH.
Qed.

Lemma endswith_snoc (c : ascii) (s : string) :
  endswith c s = true -> exists s0, s = s0 +:+ String c "".
Proof.
  induction s as [|x s IH]; [done|]. simpl.
  destruct s as [|y t].
  - destruct (decide (x = c)) as [->|]; [|done]. by exists "".
  - intros (s0 & ->)%IH. by exists (String x s0).
Qed.

(** What [dirname] returns: nothing, a run of slashes, or a path that
    does not end with a slash. *)
Lemma dirname_shape (p : string) :
  dirname p = "" \/
  (dirname p <> "" /\ all is_sep (dirname p) = true) \/
  (dirname p <> "" /\ endswith "/" (dirname p) = false /\
   all is_sep (dirname p) = false).
Proof.
  unfold dirname.
  set (head := take _ p).
  destruct (decide (head = "")) as [->|Hne]; [by left|].
  rewrite (bool_decide_eq_false_2 _ Hne). simpl.
  destruct (all is_sep head) eqn:Hall; simpl.
  - right. by left.
  - right. right. destruct (rstrip_keeps head Hall) as [? ?].
    split; [done|]. split; [apply endswith_rstrip|done].
Qed.

Lemma get_mem (n : nat) (s : string) (c : ascii) :
  String.get n s = Some c -> mem c s = true.
Proof.
  revert n. induction s as [|x s IH]; intros n; [done|]. simpl.
  destruct n as [|n].
  - intros [= ->]. by rewrite decide_True.
  - intros H%IH. rewrite H. by destruct (decide (x = c)).
Qed.

Lemma choice_no_sep (i : nat) : choice i <> "/"%char.
Proof.
  unfold choice. destruct (String.get (i mod 37) characters) as [c|] eqn:Hc; [|done].
  intros ->. apply get_mem in Hc. vm_compute in Hc. discriminate.
Qed.

Lemma rand_name_no_sep (c : list nat) : mem "/" (rand_name c) = false.
Proof.
  induction c as [|i c IH]; [done|]. simpl.
  by rewrite decide_False by apply choice_no_sep.
Qed.

(** The temporary file is made in the directory of the destination. *)
Lemma dirname_join (p : string) (c : list nat) :
  dirname (join (dirname p) (template +:+ rand_name c)) = dirname p.
Proof.
  set (b := template +:+ rand_name c).
  assert (Hb : mem "/" b = false).
  { unfold b, template. rewrite mem_app, rand_name_no_sep. done. }
  assert (Hstart : startswith "/" b = false) by done.
  unfold join. rewrite Hstart.
  destruct (dirname_shape p) as [-> | [[Hne Hall] | (Hne & Hend & Hall)]].
  - simpl. unfold dirname. by rewrite rfind_no.
  - rewrite (bool_decide_eq_false_2 _ Hne), (all_sep_endswith _ Hne Hall). simpl.
    destruct (endswith_snoc _ _ (all_sep_endswith _ Hne Hall)) as (d0 & Hd0).
    rewrite Hd0 in *. rewrite sapp_assoc.
    change (d0 +:+ "/" +:+ b) with (d0 +:+ String "/" b).
    unfold dirname at 1. cbv zeta. rewrite head_last by done.
    rewrite Hall. by rewrite andb_false_r.
  - rewrite (bool_decide_eq_false_2 _ Hne), Hend. simpl.
    change (dirname p +:+ "/" +:+ b) with (dirname p +:+ String "/" b).
    unfold dirname at 1. cbv zeta. rewrite head_last by done.
    rewrite all_app, Hall. simpl.
    rewrite bool_decide_eq_false_2.
    + simpl. rewrite rstrip_snoc. by apply rstrip_id.
    + intros [? _]%sapp_eq_empty. done.
Qed.

(** *** The last name of a path *)

Lemma drop_past (a s : string) (n : nat) :
  drop (String.length a + n) (a +:+ s) = drop n s.
Proof. induction a as [|x a IH]; simpl; [done|]. by rewrite IH. Qed.

Lemma basename_last (a b : string) :
  mem "/" b = false -> basename (a +:+ String "/" b) = b.
Proof.
  intros Hb. unfold basename. rewrite rfind_last by done.
  by rewrite <- Nat.add_1_r, drop_past.
Qed.

Lemma basename_no (b : string) : mem "/" b = false -> basename b = b.
Proof. intros Hb. unfold basename. by rewrite rfind_no. Qed.

Lemma endswith_app (c : ascii) (a b : string) :
  b <> "" -> endswith c (a +:+ b) = endswith c b.
Proof.
  intros Hb. induction a as [|x a IH]; [done|].
  rewrite sapp_cons. rewrite <- IH. simpl.
  destruct (a +:+ b) eqn:E; [|done].
  by apply sapp_eq_empty in E as [_ ?].
Qed.

Lemma endswith_no_mem (c : ascii) (b : string) :
  mem c b = false -> endswith c b = false.
Proof.
  induction b as [|x b IH]; [done|]. simpl.
  destruct (decide (x = c)); [done|]. intros H. destruct b; [done|]. by apply IH.
Qed.

Lemma all_sep_no_mem (b : string) :
  b <> "" -> mem "/" b = false -> all is_sep b = false.
Proof.
  destruct b as [|x b]; [done|]. intros _. simpl. unfold is_sep.
  by destruct (decide (x = "/"%char)).
Qed.

(** A path that ends with a name of its own: not empty, without a
    trailing slash, its last name not [.] or [..]. *)
Definition plain (p : string) : Prop :=
  p <> "" /\ endswith "/" p = false /\ rstrip "/" p = p /\ busy p = false.

Lemma last_name_plain (a b : string) :
  mem "/" b = false -> plain_component b = true ->
  plain (a +:+ String "/" b).
Proof.
  intros Hb Hplain. unfold plain.
  assert (Hne : b <> "") by (intros ->; done).
  assert (Hend : endswith "/" (a +:+ String "/" b) = false).
  { rewrite endswith_app by done.
    destruct b as [|y b]; [done|]. by apply (endswith_no_mem "/" (String y b)). }
  split; [by destruct a|]. split; [done|].
  split; [by apply rstrip_id|].
  unfold busy. rewrite (rstrip_id _ _ Hend), (basename_last a b Hb).
  rewrite all_app. simpl. rewrite (all_sep_no_mem b) by done.
  rewrite andb_false_r. simpl.
  unfold plain_component in Hplain.
  destruct (bool_decide (b = ".")), (bool_decide (b = ".."));
    by rewrite ?andb_false_r in Hplain.
Qed.

(** [split] and the last piece. *)
Lemma split_last (sep : ascii) (s : string) :
  (mem sep s = false /\ split sep s = [s]) \/
  (exists a b l, s = a +:+ String sep b /\ mem sep b = false /\
                 split sep s = l ++ [b] /\ l <> []).
Proof.
  induction s as [|x t IH]; [by left|]. simpl.
  destruct (decide (x = sep)) as [->|Hx].
  - right. destruct IH as [[Hm Hs] | (a & b & l & -> & Hb & Hs & Hl)].
    + exists "", t, [""]. by rewrite Hs.
    + exists (String sep a), b, ("" :: l). by rewrite Hs.
  - destruct IH as [[Hm Hs] | (a & b & l & -> & Hb & Hs & Hl)].
    + left. by rewrite Hs.
    + right. rewrite Hs. destruct l as [|q l]; [done|].
      by exists (String x a), b, (String x q :: l).
Qed.

(** The shape of a [canonical] path. *)
Lemma canonical_split (p : string) :
  canonical p = true ->
  exists a b, p = a +:+ String "/" b /\ mem "/" b = false /\
              plain_component b = true.
Proof.
  destruct p as [|c rest]; [done|]. simpl. intros [Hc Hall]%andb_prop.
  assert (c = "/"%char) as ->.
  { unfold is_sep in Hc. by destruct (decide (c = "/"%char)). }
  destruct (split_last "/" rest) as [[Hm Hs] | (a & b & l & -> & Hb & Hs & Hl)].
  - rewrite Hs in Hall. simpl in Hall. rewrite andb_true_r in Hall.
    by exists "", rest.
  - rewrite Hs, forallb_app in Hall. apply andb_prop in Hall as [_ Hall].
    simpl in Hall. rewrite andb_true_r in Hall.
    by exists (String "/" a), b.
Qed.

Lemma canonical_plain (p : string) : canonical p = true -> plain p.
Proof.
  intros (a & b & -> & Hb & Hplain)%canonical_split.
  by apply last_name_plain.
Qed.

(** The path of a temporary file. *)
Lemma join_last (dir b : string) :
  b <> "" -> mem "/" b = false ->
  join dir b = b \/
  exists a, join dir b = a +:+ String "/" b /\ String.length a <= String.length dir.
Proof.
  intros Hne Hb. unfold join.
  assert (startswith "/" b = false) as ->.
  { destruct b as [|x b]; [done|]. simpl in *. by destruct (decide (x = "/"%char)). }
  destruct (decide (dir = "")) as [->|Hdir]; [by left|].
  rewrite (bool_decide_eq_false_2 _ Hdir). simpl. right.
  destruct (endswith "/" dir) eqn:Hend.
  - apply endswith_snoc in Hend as (d0 & ->). exists d0.
    rewrite sapp_assoc, slength_app. split; [done|lia].
  - by exists dir.
Qed.

Lemma tmp_name (c : list nat) :
  let b := template +:+ rand_name c in
  b <> "" /\ mem "/" b = false /\ plain_component b = true.
Proof.
  cbv zeta. split; [done|]. split; [|done].
  unfold template. by rewrite mem_app, rand_name_no_sep.
Qed.

Lemma tmp_plain (dir tmp : string) (c : list nat) :
  tmp = join dir (template +:+ rand_name c) -> plain tmp.
Proof.
  intros ->. destruct (tmp_name c) as (Hne & Hb & Hplain).
  set (b := template +:+ rand_name c) in *. unfold plain.
  destruct (join_last dir b Hne Hb) as [E | (a & E & _)]; rewrite E.
  - assert (Hend : endswith "/" b = false) by by apply endswith_no_mem.
    split; [done|]. split; [done|]. split; [by apply rstrip_id|].
    unfold busy. rewrite (rstrip_id _ _ Hend), basename_no by done.
    by rewrite (all_sep_no_mem b).
  - by apply last_name_plain.
Qed.

(** *** The directories on the way down a path *)

Lemma parents_from_app (pre s t : string) :
  parents_from pre (s +:+ t) = parents_from pre s ++ parents_from (pre +:+ s) t.
Proof.
  revert pre. induction s as [|c s IH]; intros pre; simpl.
  - by rewrite sapp_empty_r.
  - by rewrite IH, <- List.app_assoc, sapp_assoc.
Qed.

Lemma parents_from_no (pre t : string) :
  mem "/" t = false -> parents_from pre t = [].
Proof.
  revert pre. induction t as [|c t IH]; intros pre; [done|]. simpl.
  unfold is_sep. destruct (decide (c = "/"%char)); [done|]. intros H.
  by rewrite IH.
Qed.

Lemma parents_from_length (pre s p : string) :
  p ∈ parents_from pre s ->
  String.length p < String.length pre + String.length s.
Proof.
  revert pre. induction s as [|c s IH]; intros pre; simpl.
  - by intros ?%elem_of_nil.
  - intros [H|H]%elem_of_app.
    + destruct (is_sep c && negb (bool_decide (pre = "")) && negb (endswith "/" pre)).
      * apply list_elem_of_singleton in H as ->. lia.
      * by apply elem_of_nil in H.
    + apply IH in H. rewrite slength_app in H. simpl in H. lia.
Qed.

(** A path is not on the way down to itself. *)
Lemma parents_self (s : string) : s ∉ parents s.
Proof. intros H%parents_from_length. simpl in H. lia. Qed.

(** The directories on the way down to a file in [a]. *)
Lemma parents_last (a b p : string) :
  mem "/" b = false -> p ∈ parents (a +:+ String "/" b) ->
  String.length p <= String.length a.
Proof.
  intros Hb. unfold parents.
  change (a +:+ String "/" b) with (a +:+ "/" +:+ b).
  rewrite <- sapp_assoc, parents_from_app, (parents_from_no _ b Hb), app_nil_r.
  intros H%parents_from_length. rewrite slength_app in H. simpl in H. lia.
Qed.

Lemma rstrip_length (c : ascii) (s : string) :
  String.length (rstrip c s) <= String.length s.
Proof.
  induction s as [|x s IH]; [done|]. simpl.
  destruct (rstrip c s); [destruct (decide (x = c))|]; simpl in *; lia.
Qed.

Lemma canonical_dirname_shorter (p : string) :
  canonical p = true -> String.length (dirname p) < String.length p.
Proof.
  intros (a & b & -> & Hb & Hplain)%canonical_split.
  assert (Hne : b <> "") by (intros ->; done).
  assert (Hlen : String.length (a +:+ "/") < String.length (a +:+ String "/" b)).
  { rewrite !slength_app. simpl. destruct b; [done|]. simpl. lia. }
  unfold dirname. cbv zeta. rewrite head_last by done.
  destruct (negb (bool_decide (a +:+ "/" = "")) && negb (all is_sep (a +:+ "/")));
    [|done].
  pose proof (rstrip_length "/" (a +:+ "/")). lia.
Qed.

(** The destination is not on the way down to the temporary file made
    in its directory. *)
Lemma canonical_apart (filepath tmp : string) (c : list nat) :
  canonical filepath = true ->
  tmp = join (dirname filepath) (template +:+ rand_name c) ->
  filepath ∉ parents tmp.
Proof.
  intros Hcan -> Hin. destruct (tmp_name c) as (Hne & Hb & _).
  set (b := template +:+ rand_name c) in *.
  pose proof (canonical_dirname_shorter filepath Hcan) as Hlt.
  destruct (join_last (dirname filepath) b Hne Hb) as [E | (a & E & Ha)];
    rewrite E in Hin.
  - unfold parents in Hin. rewrite parents_from_no in Hin by done.
    by apply elem_of_nil in Hin.
  - apply parents_last in Hin; [lia|done].
Qed.

End PathFacts.

(** ** The context managers *)

Module AtomicFacts.
Import Str Os Atomic StrFacts OsFacts.

Lemma bind_ok {A B} (m : M A) (k : A -> M B) (w w' : world) (a : A) :
  m w = (Ok a, w') -> (m ≫= k) w = k a w'.
Proof. intros H. unfold mbind, M_bind, bind. by rewrite H. Qed.

Lemma bind_err {A B} (m : M A) (k : A -> M B) (w w' : world) (e : exn) :
  m w = (Err e, w') -> (m ≫= k) w = (Err e, w').
Proof. intros H. unfold mbind, M_bind, bind. by rewrite H. Qed.

Lemma f_write_holding (f : file) (data d : list byte) (w wX : world) :
  holding (name f) d w wX -> writable (mode f) = true ->
  exists wY, f_write f data wX = (Ok tt, wY) /\ holding (name f) (d ++ data) w wY.
Proof.
  intros H Hw. unfold f_write. cbv zeta. rewrite Hw.
  assert (H' : holding (name f) d w (emit (EvWrite (name f) data) wX))
    by by apply holding_emit.
  rewrite (holding_lookup _ _ _ _ H').
  eexists. split; [reflexivity|]. by apply (holding_set _ d).
Qed.

(** The calls of a block on the handle of the temporary file. *)
Lemma acts_holding (f : file) (w : world) (l : list action) :
  forall wX d,
    holding (name f) d w wX ->
    exists wY d',
      acts f l wX = (outcome (acts_error (mode f) l), wY) /\
      holding (name f) d' w wY /\
      (acts_error (mode f) l = None -> d' = d ++ written l).
Proof.
  induction l as [|a l IH]; intros wX d H.
  - exists wX, d. simpl. by rewrite app_nil_r.
  - destruct a as [data|].
    + cbn [acts act acts_error written].
      destruct (writable (mode f)) eqn:Hw.
      * destruct (f_write_holding f data d w wX H Hw) as (wA & HwA & HA).
        destruct (IH wA (d ++ data) HA) as (wY & d' & Hacts & HY & Hd').
        exists wY, d'. rewrite (bind_ok _ _ _ _ _ HwA).
        split; [done|]. split; [done|]. intros Hn. rewrite Hd' by done.
        by rewrite <- List.app_assoc.
      * exists (emit (EvWrite (name f) data) wX), d.
        split; [|split; [by apply holding_emit|done]].
        apply bind_err. unfold f_write. cbv zeta. by rewrite Hw.
    + cbn [acts act acts_error written].
      assert (HA : holding (name f) d w (emit (EvFlush (name f)) wX))
        by by apply holding_emit.
      destruct (IH _ d HA) as (wY & d' & Hacts & HY & Hd').
      exists wY, d'. split; [|done].
      by rewrite (bind_ok _ _ wX (emit (EvFlush (name f)) wX) tt).
Qed.

Lemma play_holding (f : file) (w : world) (b : block) (wX : world) :
  holding (name f) [] w wX ->
  exists wY d',
    play b f wX = (outcome (block_error (mode f) b), wY) /\
    holding (name f) d' w wY /\
    (block_error (mode f) b = None -> d' = written (actions b)).
Proof.
  intros H. destruct (acts_holding f w (actions b) wX [] H) as (wY & d' & Hacts & HY & Hd').
  exists wY, d'. unfold play, block_error.
  destruct (acts_error (mode f) (actions b)) as [e|].
  - split; [by apply bind_err|done].
  - rewrite (bind_ok _ _ _ _ _ Hacts). destruct (ending b); simpl; auto.
Qed.

Lemma inner_run (w wO : world) (f : file) (fsync : bool) (b : block) :
  holding (name f) [] w wO ->
  exists wP d',
    (play b f
     ≫= λ _ : (),
          if fsync
          then
           (load_name {["f" := f]} "f" ≫= λ f0 : file, f_flush f0)
           ≫= λ _ : (),
                load_name {["f" := f]} "file"
                ≫= λ f1 : file, fileno f1 ≫= λ d : fd, os_fsync d
          else ret ()) wO = (outcome (inner_error (mode f) fsync b), wP) /\
    holding (name f) d' w wP /\
    (inner_error (mode f) fsync b = None -> d' = written (actions b)).
Proof.
  intros H. destruct (play_holding f w b wO H) as (wP & d' & Hplay & HP & Hd').
  unfold inner_error. destruct (block_error (mode f) b) as [e|].
  - exists wP, d'. split; [by apply bind_err|done].
  - rewrite (bind_ok _ _ _ _ _ Hplay). destruct fsync.
    + exists (emit (EvFlush (name f)) wP), d'. split; [reflexivity|].
      split; [by apply holding_emit|done].
    + exists wP, d'. split; [reflexivity|]. split; [done|]. intros _. by apply Hd'.
Qed.

Lemma with_open_run (w wX : world) (tmp : string) (m : fmode) (fsync : bool)
    (b : block) :
  holding tmp [] w wX -> mkind m <> X ->
  exists wY d',
    with_open tmp m
      (λ f : file,
         play b f
         ≫= λ _ : (),
              if fsync
              then
               (load_name {["f" := f]} "f" ≫= λ f0 : file, f_flush f0)
               ≫= λ _ : (),
                    load_name {["f" := f]} "file"
                    ≫= λ f1 : file, fileno f1 ≫= λ d : fd, os_fsync d
              else ret ()) wX = (outcome (inner_error m fsync b), wY) /\
    holding tmp d' w wY /\
    (inner_error m fsync b = None -> d' = written (actions b)).
Proof.
  intros H Hm. destruct (py_open_holding tmp m w wX H Hm) as (wO & Hopen & HO).
  set (f := {| name := tmp; mode := m |}) in *.
  destruct (inner_run w wO f fsync b HO) as (wP & d' & Hrun & HP & Hd').
  exists (emit (EvClose tmp) wP), d'. split; [|split; [by apply holding_emit|done]].
  unfold with_open. rewrite (bind_ok _ _ _ _ _ Hopen).
  unfold try_finally. by rewrite Hrun.
Qed.

(** The [finally] clause of [_tempfile] when the temporary file is still
    there: it is removed. *)
Lemma cleanup_removes (w wX : world) (tmp : string) (d : list byte) :
  holding tmp d w wX -> fs w !! tmp = None ->
  exists wZ,
    try_except (os_remove tmp)
      (λ e0 : exn,
         match e0 with
         | OSError errno =>
             if decide (errno = 2%Z) is left _ then ret () else raise e0
         | _ => raise e0
         end) wX = (Ok tt, wZ) /\
    fs wZ = fs w /\
    renames (log wZ) = renames (log w) /\
    fsyncs (log wZ) = fsyncs (log w).
Proof.
  intros H Hfree.
  assert (H' : holding tmp d w (emit (EvRemove tmp) wX)) by by apply holding_emit.
  unfold try_except, os_remove. rewrite (holding_lookup _ _ _ _ H').
  eexists. split; [reflexivity|]. destruct H' as (Hfs & Hren & Hsync).
  simpl in *. rewrite Hfs, delete_insert_eq, delete_id by done. done.
Qed.

(** The [finally] clause when the temporary file is gone: the
    missing-file error is dropped. *)
Lemma cleanup_gone (wX : world) (tmp : string) :
  fs wX !! tmp = None ->
  try_except (os_remove tmp)
    (λ e0 : exn,
       match e0 with
       | OSError errno =>
           if decide (errno = 2%Z) is left _ then ret () else raise e0
       | _ => raise e0
       end) wX = (Ok tt, emit (EvRemove tmp) wX).
Proof. intros H. unfold try_except, os_remove. simpl. by rewrite H. Qed.

(** When the block of [with open(...) as f] ends with an error, so does
    [open_atomic], and the file system is as it was before the call. *)
Lemma open_atomic_aborts (w w1 : world) (filepath tmp : string) (d : fd)
    (m : fmode) (fsync : bool) (b : block) (e : exn) :
  mkstemp (dirname filepath) w = (Ok (d, tmp), w1) ->
  mkind m <> X ->
  inner_error m fsync b = Some e ->
  exists w', open_atomic filepath m fsync (play b) w = (Err e, w') /\
             fs w' = fs w /\
             renames (log w') = renames (log w) /\
             fsyncs (log w') = fsyncs (log w).
Proof.
  intros Hmk Hm He.
  destruct (mkstemp_ok _ _ _ _ _ Hmk) as (-> & Hfree & H1 & _).
  unfold open_atomic, _tempfile.
  rewrite (bind_ok _ _ _ _ _ Hmk). cbn beta iota.
  rewrite (bind_ok _ _ w1 (emit (EvCloseFd tmp) w1) tt) by reflexivity.
  assert (HA : holding tmp [] w (emit (EvCloseFd tmp) w1)) by by apply holding_emit.
  destruct (with_open_run w _ tmp m fsync b HA Hm) as (wY & d' & Hrun & HY & _).
  rewrite He in Hrun.
  destruct (cleanup_removes w wY tmp d' HY Hfree) as (wZ & Hclean & Hfs & Hren & Hsync).
  exists wZ. split; [|done].
  unfold try_finally. rewrite (bind_err _ _ _ _ _ Hrun). by rewrite Hclean.
Qed.

Lemma py_open_taken (tmp : string) (m : fmode) (w wX : world) :
  holding tmp [] w wX -> mkind m = X ->
  py_open tmp m wX = (Err (OSError EEXIST), emit (EvOpen tmp) wX).
Proof.
  intros H Hm. unfold py_open.
  assert (H' : holding tmp [] w (emit (EvOpen tmp) wX)) by by apply holding_emit.
  by rewrite (holding_lookup _ _ _ _ H'), Hm.
Qed.

(** The [finally] clause on a world that has the temporary file: the file
    system is left without it. *)
Lemma cleanup_fs (m0 : gmap string node) (wX : world) (tmp : string) (d : list byte) :
  fs wX = <[tmp := File d]> m0 -> m0 !! tmp = None ->
  exists wZ,
    try_except (os_remove tmp)
      (λ e0 : exn,
         match e0 with
         | OSError errno =>
             if decide (errno = 2%Z) is left _ then ret () else raise e0
         | _ => raise e0
         end) wX = (Ok tt, wZ) /\
    fs wZ = m0 /\
    log wZ = log wX ++ [EvRemove tmp].
Proof.
  intros Hfs Hfree. unfold try_except, os_remove. simpl.
  rewrite Hfs, lookup_insert_eq. eexists. split; [reflexivity|]. simpl.
  by rewrite delete_insert_eq, delete_id.
Qed.

(** What [os.rename] does with the temporary file, by what the
    destination is. *)
Lemma os_rename_tmp (w wY : world) (tmp filepath : string) (d : list byte) :
  fs wY = <[tmp := File d]> (fs w) ->
  fs w !! tmp = None ->
  PathFacts.plain tmp ->
  dir_exists (fs w) (dirname tmp) = Ok tt ->
  os_rename tmp filepath wY =
    let wR := emit (EvRename tmp filepath) wY in
    if bool_decide (filepath = "") then (Err (OSError ENOENT), wR)
    else match dir_exists (fs wY) (dirname (rstrip "/" filepath)) with
         | Err e => (Err e, wR)
         | Ok _ =>
             if busy filepath then (Err (OSError EBUSY), wR)
             else if endswith "/" filepath then (Err (OSError ENOTDIR), wR)
             else if bool_decide (filepath ∈ parents tmp)
             then (Err (OSError ENOTEMPTY), wR)
             else if decide (tmp = filepath) then (Ok tt, wR)
             else match fs w !! filepath with
                  | Some Dir => (Err (OSError EISDIR), wR)
                  | _ => (Ok tt, set_fs (<[filepath := File d]> (fs w)) wR)
                  end
         end.
Proof.
  intros Hfs Hfree (Hne & Hend & Hstrip & Hbusy) Hdir.
  unfold os_rename. cbv zeta. cbn [fs emit].
  rewrite Hstrip, (bool_decide_eq_false_2 _ Hne), Hbusy, Hend. cbn [orb].
  rewrite Hfs, (dir_exists_insert _ _ _ _ Hdir Hfree), lookup_insert_eq.
  destruct (bool_decide (filepath = "")); [done|].
  destruct (dir_exists (<[tmp:=File d]> (fs w)) (dirname (rstrip "/" filepath)))
    as [[]|e]; [|done].
  destruct (busy filepath); [done|]. cbn [is_file andb negb].
  destruct (endswith "/" filepath) eqn:Hslash; [done|].
  rewrite (PathFacts.rstrip_id _ _ Hslash).
  destruct (bool_decide (filepath ∈ parents tmp)); [done|].
  destruct (decide (tmp = filepath)) as [|Hdiff]; [done|].
  rewrite lookup_insert_ne by done.
  rewrite delete_insert_eq, delete_id by done.
  by destruct (fs w !! filepath) as [[|]|].
Qed.

(** When the block under [with open(...) as f] ends normally and [fsync]
    is unset, what is left of [open_atomic] is the rename and the
    [finally] clause, run on a world that has the temporary file with the
    bytes written. *)
Lemma open_atomic_reaches_rename (w w1 : world) (filepath tmp : string) (d : fd)
    (m : fmode) (b : block) :
  mkstemp (dirname filepath) w = (Ok (d, tmp), w1) ->
  mkind m <> X ->
  block_error m b = None ->
  exists wY,
    holding tmp (written (actions b)) w wY /\
    open_atomic filepath m false (play b) w =
    try_finally (os_rename tmp filepath)
      (try_except (os_remove tmp)
         (λ e0 : exn,
            match e0 with
            | OSError errno =>
                if decide (errno = 2%Z) is left _ then ret () else raise e0
            | _ => raise e0
            end)) wY.
Proof.
  intros Hmk Hm Hb.
  destruct (mkstemp_ok _ _ _ _ _ Hmk) as (-> & Hfree & H1 & _).
  assert (Hin : inner_error m false b = None) by (unfold inner_error; by rewrite Hb).
  assert (HA : holding tmp [] w (emit (EvCloseFd tmp) w1)) by by apply holding_emit.
  destruct (with_open_run w _ tmp m false b HA Hm) as (wY & d' & Hrun & HY & Hd').
  rewrite Hin in Hrun. rewrite (Hd' Hin) in HY.
  exists wY. split; [done|].
  unfold open_atomic, _tempfile.
  rewrite (bind_ok _ _ _ _ _ Hmk). cbn beta iota.
  rewrite (bind_ok _ _ w1 (emit (EvCloseFd tmp) w1) tt) by reflexivity.
  unfold try_finally. by rewrite (bind_ok _ _ _ _ _ Hrun).
Qed.

(** The file system after a run that reaches the rename, for a
    destination that ends with a name of its own, in the directory the
    temporary file was made in, and is not on the way down to it. *)
Lemma rename_and_cleanup (w wY : world) (filepath tmp : string) (B : list byte)
    (c : list nat) :
  holding tmp B w wY ->
  fs w !! tmp = None ->
  tmp = join (dirname filepath) (template +:+ rand_name c) ->
  PathFacts.plain filepath ->
  filepath ∉ parents tmp ->
  dir_exists (fs w) (dirname filepath) = Ok tt ->
  exists wZ,
    try_finally (os_rename tmp filepath)
      (try_except (os_remove tmp)
         (λ e0 : exn,
            match e0 with
            | OSError errno =>
                if decide (errno = 2%Z) is left _ then ret () else raise e0
            | _ => raise e0
            end)) wY =
    (if decide (tmp = filepath) then Ok tt
     else match fs w !! filepath with
          | Some Dir => Err (OSError EISDIR)
          | _ => Ok tt
          end, wZ) /\
    fs wZ = (if decide (tmp = filepath) then fs w
             else match fs w !! filepath with
                  | Some Dir => fs w
                  | _ => <[filepath := File B]> (fs w)
                  end) /\
    log wZ = log wY ++ [EvRename tmp filepath; EvRemove tmp].
Proof.
  intros (Hfs & _) Hfree Hc (Hf1 & Hf2 & Hf3 & Hf4) Hapart Hdir.
  assert (Hdir' : dir_exists (fs w) (dirname tmp) = Ok tt)
    by by rewrite Hc, PathFacts.dirname_join.
  unfold try_finally.
  rewrite (os_rename_tmp w wY tmp filepath B Hfs Hfree
             (PathFacts.tmp_plain _ _ _ Hc) Hdir'). cbv zeta.
  rewrite (bool_decide_eq_false_2 _ Hf1), Hf3, Hfs.
  rewrite dir_exists_insert by done.
  rewrite Hf4, Hf2, (bool_decide_eq_false_2 _ Hapart).
  destruct (cleanup_fs (fs w) (emit (EvRename tmp filepath) wY) tmp B Hfs Hfree)
    as (wZ & Hclean & HfsZ & Hlog).
  assert (Hlog' : log wZ = log wY ++ [EvRename tmp filepath; EvRemove tmp]).
  { rewrite Hlog. simpl. by rewrite <- List.app_assoc. }
  destruct (decide (tmp = filepath)) as [|Hne].
  { cbn beta iota. rewrite Hclean. by exists wZ. }
  destruct (fs w !! filepath) as [[data|]|] eqn:Hdst; cbn beta iota.
  - rewrite cleanup_gone by (simpl; by rewrite lookup_insert_ne).
    eexists. split; [reflexivity|]. simpl. split; [done|].
    by rewrite <- List.app_assoc.
  - rewrite Hclean. by exists wZ.
  - rewrite cleanup_gone by (simpl; by rewrite lookup_insert_ne).
    eexists. split; [reflexivity|]. simpl. split; [done|].
    by rewrite <- List.app_assoc.
Qed.


Lemma acts_error_writable (m : fmode) (l : list action) :
  writable m = true -> acts_error m l = None.
Proof.
  intros Hw. induction l as [|[data|] l IH]; simpl; by rewrite ?Hw.
Qed.

(** The calls of [open_atomic] on [d/new.p] in [sample_world], in order:
    with [fsync] unset the temporary file is renamed and the removal
    finds it gone; with [fsync] set the run stops after the flush. *)
Example open_atomic_calls :
  log (snd (open_atomic "d/new.p" wb false (play writes_ab) sample_world)) =
    [EvCreate sample_tmp; EvCloseFd sample_tmp; EvOpen sample_tmp;
     EvWrite sample_tmp [x61]; EvWrite sample_tmp [x62]; EvClose sample_tmp;
     EvRename sample_tmp "d/new.p"; EvRemove sample_tmp].
Proof. reflexivity. Qed.

Example open_atomic_fsync_calls :
  log (snd (open_atomic "d/new.p" wb true (play writes_ab) sample_world)) =
    [EvCreate sample_tmp; EvCloseFd sample_tmp; EvOpen sample_tmp;
     EvWrite sample_tmp [x61]; EvWrite sample_tmp [x62]; EvFlush sample_tmp;
     EvClose sample_tmp; EvRemove sample_tmp].
Proof. reflexivity. Qed.

(** C1.  For every destination path and every content of the file
    system before the call: when the temporary file has been made and
    opened and the caller's block raises [e] while it uses the handle,
    [open_atomic] raises [e], makes no rename, and leaves the file system
    as it was: the destination holds what it held (or is absent as it
    was) and the temporary file is removed. *)
Theorem body_error_leaves_destination (w w1 : world) (filepath tmp : string)
    (d : fd) (m : fmode) (fsync : bool) (b : block) (e : exn) :
  mkstemp (dirname filepath) w = (Ok (d, tmp), w1) ->
  mkind m <> X ->
  block_error m b = Some e ->
  exists w', open_atomic filepath m fsync (play b) w = (Err e, w') /\
             renames (log w') = renames (log w) /\
             fs w' !! filepath = fs w !! filepath /\
             fs w' !! tmp = None /\
             fs w' = fs w.
Proof.
  intros Hmk Hm He.
  destruct (open_atomic_aborts w w1 filepath tmp d m fsync b e Hmk Hm)
    as (w' & Hrun & Hfs & Hren & _).
  { unfold inner_error. by rewrite He. }
  destruct (mkstemp_ok _ _ _ _ _ Hmk) as (_ & Hfree & _).
  exists w'. rewrite Hfs. done.
Qed.

(** C1 at [sample_world], the destination being the file [d/out.p]. *)
Lemma body_error_leaves_destination_witness :
  mkstemp (dirname "d/out.p") sample_world =
    (Ok (Fd sample_tmp, sample_tmp), snd (mkstemp "d" sample_world)) /\
  exists w', open_atomic "d/out.p" wb false (play writes_then_raises) sample_world
             = (Err (Raised "boom"), w') /\
             renames (log w') = renames (log sample_world) /\
             fs w' !! "d/out.p" = fs sample_world !! "d/out.p" /\
             fs w' !! sample_tmp = None /\
             fs w' = fs sample_world.
Proof.
  split; [by vm_compute|].
  apply (body_error_leaves_destination sample_world (snd (mkstemp "d" sample_world))
           "d/out.p" sample_tmp (Fd sample_tmp) wb false writes_then_raises
           (Raised "boom")).
  - by vm_compute.
  - done.
  - reflexivity.
Defined.




(** C3 does not hold of the code.  For every call with [fsync] set in
    which the temporary file has been made and opened and the caller's
    block ends normally: after [f.flush()], the look-up of the name
    [file] in [os.fsync(file.fileno())] raises [NameError]; no fsync and
    no rename are made, the temporary file is removed, and the
    destination is as it was before the call. *)
Theorem fsync_raises_name_error (w w1 : world) (filepath tmp : string)
    (d : fd) (m : fmode) (b : block) :
  mkstemp (dirname filepath) w = (Ok (d, tmp), w1) ->
  mkind m <> X ->
  block_error m b = None ->
  exists w', open_atomic filepath m true (play b) w = (Err (NameError "file"), w') /\
             fsyncs (log w') = fsyncs (log w) /\
             renames (log w') = renames (log w) /\
             fs w' = fs w.
Proof.
  intros Hmk Hm Hb.
  destruct (open_atomic_aborts w w1 filepath tmp d m true b (NameError "file") Hmk Hm)
    as (w' & Hrun & Hfs & Hren & Hsync).
  { unfold inner_error. by rewrite Hb. }
  by exists w'.
Qed.

(** C3 at [sample_world]: the call with [fsync] set raises. *)
Lemma fsync_raises_name_error_witness :
  mkstemp (dirname "d/new.p") sample_world =
    (Ok (Fd sample_tmp, sample_tmp), snd (mkstemp "d" sample_world)) /\
  exists w', open_atomic "d/new.p" wb true (play writes_ab) sample_world
             = (Err (NameError "file"), w') /\
             fsyncs (log w') = fsyncs (log sample_world) /\
             renames (log w') = renames (log sample_world) /\
             fs w' = fs sample_world.
Proof.
  split; [by vm_compute|].
  apply (fsync_raises_name_error sample_world (snd (mkstemp "d" sample_world))
           "d/new.p" sample_tmp (Fd sample_tmp) wb writes_ab).
  - by vm_compute.
  - done.
  - reflexivity.
Defined.

(** C8.  On every exit of the block under [_tempfile], normal or with
    an error, [os.remove] is called on the temporary file: a file that
    is still there is deleted and the exit of the block is kept; a
    missing-file error ([errno] 2) of the removal is dropped and the exit
    of the block is kept; any other error of the removal is raised to the
    caller. *)
Theorem tempfile_cleanup {A} (dir : string) (body : string -> M A)
    (w w1 w2 : world) (d : fd) (tmp : string) (r : result A) :
  mkstemp dir w = (Ok (d, tmp), w1) ->
  body tmp (snd (os_close d w1)) = (r, w2) ->
  exists rr w3,
    os_remove tmp w2 = (rr, w3) /\
    match rr with
    | Ok _ => _tempfile dir body w = (r, w3) /\ fs w3 !! tmp = None
    | Err e =>
        _tempfile dir body w = (if decide (e = OSError ENOENT) then r else Err e, w3)
    end /\
    (forall data, fs w2 !! tmp = Some (File data) -> rr = Ok tt) /\
    (fs w2 !! tmp = None -> rr = Err (OSError ENOENT)).
Proof.
  intros Hmk Hbody.
  destruct (mkstemp_ok _ _ _ _ _ Hmk) as (-> & _).
  assert (Hrun : forall rr w3,
    try_except (os_remove tmp)
      (λ e0 : exn,
         match e0 with
         | OSError errno =>
             if decide (errno = 2%Z) is left _ then ret () else raise e0
         | _ => raise e0
         end) w2 = (rr, w3) ->
    _tempfile dir body w = (match rr with Ok _ => r | Err e => Err e end, w3)).
  { intros rr w3 Hclean. unfold _tempfile.
    rewrite (bind_ok _ _ _ _ _ Hmk). cbn beta iota.
    rewrite (bind_ok _ _ w1 (emit (EvCloseFd tmp) w1) tt) by reflexivity.
    unfold try_finally. simpl in Hbody. rewrite Hbody, Hclean. by destruct rr as [[]|]. }
  unfold try_except, os_remove in *. simpl in *.
  destruct (fs w2 !! tmp) as [[data|]|] eqn:Hlook.
  - eexists _, _. split; [reflexivity|]. split; [|split; [done|done]].
    split; [by apply (Hrun (Ok tt))|]. simpl. apply lookup_delete_eq.
  - eexists _, _. split; [reflexivity|]. split; [|split; [done|done]].
    rewrite decide_False by done. by apply (Hrun (Err (OSError EISDIR))).
  - eexists _, _. split; [reflexivity|]. split; [|split; [done|done]].
    rewrite decide_True by done. by apply (Hrun (Ok tt)).
Qed.

(** C8 at [sample_world], with a block that raises. *)
Lemma tempfile_cleanup_witness :
  mkstemp "d" sample_world =
    (Ok (Fd sample_tmp, sample_tmp), snd (mkstemp "d" sample_world)) /\
  exists w3, _tempfile "d" (fun _ => raise (A := unit) (Raised "boom")) sample_world
             = (Err (Raised "boom"), w3) /\
             fs w3 !! sample_tmp = None.
Proof.
  split; [by vm_compute|].
  destruct (tempfile_cleanup "d" (fun _ => raise (A := unit) (Raised "boom"))
              sample_world (snd (mkstemp "d" sample_world))
              (snd (os_close (Fd sample_tmp) (snd (mkstemp "d" sample_world))))
              (Fd sample_tmp) sample_tmp (Err (Raised "boom")))
    as (rr & w3 & _ & Hcase & Hfile & _).
  - by vm_compute.
  - reflexivity.
  - rewrite (Hfile []) in Hcase by by vm_compute. by exists w3.
Defined.

(** *** More of [open_atomic] *)


(** X2.  Replacement: in a name space of [canonical] paths, where no
    other name names the destination, and for a destination given by its
    [canonical] path: when the temporary file has been made under a name
    other than the destination's, the destination is not a directory, the
    mode is not [x] and the block ends normally with [fsync] unset,
    [open_atomic] returns normally; the destination, whether it held a
    file or nothing, then holds exactly the bytes written, every other
    path is as before, and one rename, of the temporary file onto the
    destination, has been made. *)
Theorem open_atomic_replaces (w w1 : world) (filepath tmp : string) (d : fd)
    (m : fmode) (b : block) :
  canonical_fs (fs w) ->
  canonical filepath = true ->
  mkstemp (dirname filepath) w = (Ok (d, tmp), w1) ->
  tmp <> filepath ->
  fs w !! filepath <> Some Dir ->
  mkind m <> X ->
  block_error m b = None ->
  exists w',
    open_atomic filepath m false (play b) w = (Ok tt, w') /\
    fs w' = <[filepath := File (written (actions b))]> (fs w) /\
    read_bytes filepath w' = Some (written (actions b)) /\
    renames (log w') = renames (log w) ++ [(tmp, filepath)].
Proof.
  intros _ Hcan Hmk Hne Hdst Hm Hb.
  destruct (mkstemp_ok _ _ _ _ _ Hmk) as (_ & Hfree & _ & Hdir & c & Hc).
  destruct (open_atomic_reaches_rename w w1 filepath tmp d m b Hmk Hm Hb)
    as (wY & HY & ->).
  destruct (rename_and_cleanup w wY filepath tmp _ c HY Hfree Hc
              (PathFacts.canonical_plain _ Hcan)
              (PathFacts.canonical_apart _ _ _ Hcan Hc) Hdir)
    as (wZ & -> & HfsZ & Hlog).
  rewrite decide_False in HfsZ by done. rewrite decide_False by done.
  assert (fs wZ = <[filepath := File (written (actions b))]> (fs w)
                /\ match fs w !! filepath with
                   | Some Dir => Err (OSError EISDIR)
                   | _ => Ok tt
                   end = Ok tt) as [Hfs ->].
  { rewrite HfsZ. by destruct (fs w !! filepath) as [[data|]|] eqn:E. }
  exists wZ. split; [done|].
  split; [done|]. split.
  - unfold read_bytes. by rewrite Hfs, lookup_insert_eq.
  - destruct HY as (_ & Hren & _).
    rewrite Hlog, renames_app, Hren. done.
Qed.

(** X2 at [root_world]: [/d/out.p], which holds one byte, is replaced. *)
Lemma open_atomic_replaces_witness :
  canonical_fs (fs root_world) /\
  canonical "/d/out.p" = true /\
  read_bytes "/d/out.p" root_world = Some [x01] /\
  exists w',
    open_atomic "/d/out.p" wb false (play writes_ab) root_world = (Ok tt, w') /\
    fs w' = <["/d/out.p" := File [x61; x62]]> (fs root_world) /\
    read_bytes "/d/out.p" w' = Some [x61; x62] /\
    renames (log w') = renames (log root_world) ++ [(root_tmp, "/d/out.p")].
Proof.
  assert (Hfs : canonical_fs (fs root_world)).
  { apply (bool_decide_unpack _). by vm_compute. }
  split; [done|]. split; [reflexivity|]. split; [reflexivity|].
  apply (open_atomic_replaces root_world (snd (mkstemp "/d" root_world))
           "/d/out.p" root_tmp (Fd root_tmp) wb writes_ab).
  - done.
  - reflexivity.
  - by vm_compute.
  - done.
  - by vm_compute.
  - done.
  - reflexivity.
Defined.

(** X3.  A destination that is a directory, given by its [canonical]
    path: when the temporary file has been made and opened and the block
    ends normally, the rename raises [IsADirectoryError] ([errno] 21),
    which [open_atomic] raises after the temporary file is removed; the
    file system is as before the call. *)
Theorem open_atomic_onto_directory (w w1 : world) (filepath tmp : string) (d : fd)
    (m : fmode) (b : block) :
  canonical filepath = true ->
  fs w !! filepath = Some Dir ->
  mkstemp (dirname filepath) w = (Ok (d, tmp), w1) ->
  mkind m <> X ->
  block_error m b = None ->
  exists w',
    open_atomic filepath m false (play b) w = (Err (OSError EISDIR), w') /\
    fs w' = fs w /\
    renames (log w') = renames (log w) ++ [(tmp, filepath)].
Proof.
  intros Hcan Hdst Hmk Hm Hb.
  destruct (mkstemp_ok _ _ _ _ _ Hmk) as (_ & Hfree & _ & Hdir & c & Hc).
  assert (Hne : tmp <> filepath) by (intros ->; congruence).
  destruct (open_atomic_reaches_rename w w1 filepath tmp d m b Hmk Hm Hb)
    as (wY & HY & ->).
  destruct (rename_and_cleanup w wY filepath tmp _ c HY Hfree Hc
              (PathFacts.canonical_plain _ Hcan)
              (PathFacts.canonical_apart _ _ _ Hcan Hc) Hdir)
    as (wZ & -> & HfsZ & Hlog).
  rewrite decide_False, Hdst in HfsZ by done. rewrite decide_False, Hdst by done.
  exists wZ. split; [done|]. split; [done|].
  destruct HY as (_ & Hren & _). by rewrite Hlog, renames_app, Hren.
Qed.

(** X3 at [root_world], the destination being the directory [/d]. *)
Lemma open_atomic_onto_directory_witness :
  canonical "/d" = true /\
  fs root_world !! "/d" = Some Dir /\
  exists w',
    open_atomic "/d" wb false (play writes_ab) root_world
    = (Err (OSError EISDIR), w') /\
    fs w' = fs root_world /\
    renames (log w') = renames (log root_world) ++ [("/tmpabcdefgh", "/d")].
Proof.
  split; [reflexivity|]. split; [reflexivity|].
  apply (open_atomic_onto_directory root_world (snd (mkstemp "/" root_world))
           "/d" "/tmpabcdefgh" (Fd "/tmpabcdefgh") wb writes_ab).
  - reflexivity.
  - reflexivity.
  - by vm_compute.
  - done.
  - reflexivity.
Defined.

(** X4.  Mode [x]: [mkstemp] has made the temporary file, so opening it
    for exclusive creation raises [FileExistsError] ([errno] 17) whatever
    the block is; the block is not run, the temporary file is removed and
    the file system is as before the call. *)
Theorem open_atomic_exclusive_mode (w w1 : world) (filepath tmp : string) (d : fd)
    (m : fmode) (fsync : bool) (body : file -> M unit) :
  mkstemp (dirname filepath) w = (Ok (d, tmp), w1) ->
  mkind m = X ->
  exists w',
    open_atomic filepath m fsync body w = (Err (OSError EEXIST), w') /\
    fs w' = fs w /\
    log w' = log w1 ++ [EvCloseFd tmp; EvOpen tmp; EvRemove tmp].
Proof.
  intros Hmk HX.
  destruct (mkstemp_ok _ _ _ _ _ Hmk) as (-> & Hfree & H1 & _).
  assert (HA : holding tmp [] w (emit (EvCloseFd tmp) w1)) by by apply holding_emit.
  destruct (cleanup_fs (fs w) (emit (EvOpen tmp) (emit (EvCloseFd tmp) w1)) tmp [])
    as (wZ & Hclean & HfsZ & Hlog); [apply H1|done|].
  exists wZ. split; [|split; [done|]].
  - unfold open_atomic, _tempfile.
    rewrite (bind_ok _ _ _ _ _ Hmk). cbn beta iota.
    rewrite (bind_ok _ _ w1 (emit (EvCloseFd tmp) w1) tt) by reflexivity.
    unfold try_finally, with_open.
    rewrite (bind_err _ _ _ _ _
               (bind_err _ _ _ _ _ (py_open_taken tmp m w _ HA HX))).
    by rewrite Hclean.
  - rewrite Hlog. simpl. by rewrite <- !List.app_assoc.
Qed.

(** X4 at [sample_world], with mode [x] and a block that would write. *)
Lemma open_atomic_exclusive_mode_witness :
  exists w',
    open_atomic "d/new.p" {| mkind := X; plus := false |} false (play writes_ab)
      sample_world = (Err (OSError EEXIST), w') /\
    fs w' = fs sample_world /\
    log w' = [EvCreate sample_tmp; EvCloseFd sample_tmp; EvOpen sample_tmp;
              EvRemove sample_tmp].
Proof.
  apply (open_atomic_exclusive_mode sample_world (snd (mkstemp "d" sample_world))
           "d/new.p" sample_tmp (Fd sample_tmp) {| mkind := X; plus := false |}
           false (play writes_ab)).
  - by vm_compute.
  - reflexivity.
Defined.

(** X5.  A destination, given by its [canonical] path, in a directory
    that is not there: when the walk down to the directory of the
    destination fails, on a name that is missing ([FileNotFoundError],
    [errno] 2) or on one that is a regular file ([NotADirectoryError],
    [errno] 20), [mkstemp] raises that error at its first attempt and
    [open_atomic] raises it: one name has been drawn and one file
    creation attempted; whatever the block is, it is not run, and nothing
    has changed on the file system. *)
Theorem open_atomic_missing_directory (w : world) (filepath : string) (m : fmode)
    (fsync : bool) (body : file -> M unit) (e : exn) :
  canonical filepath = true ->
  dir_exists (fs w) (dirname filepath) = Err e ->
  (e = OSError ENOENT \/ e = OSError ENOTDIR) /\
  exists w',
    open_atomic filepath m fsync body w = (Err e, w') /\
    fs w' = fs w /\
    log w' = log w ++ [EvCreate (join (dirname filepath)
                                   (template +:+ rand_name (draws w 0)))] /\
    (forall i, draws w' i = draws w (S i)).
Proof.
  intros _ Hdir. split; [by apply (dir_exists_error (fs w) (dirname filepath))|].
  eexists. split.
  - unfold open_atomic, _tempfile. apply bind_err. by apply mkstemp_no_dir.
  - done.
Qed.

(** X5 at [root_world], which has no directory [/e]. *)
Lemma open_atomic_missing_directory_witness :
  canonical "/e/out.p" = true /\
  fs root_world !! "/e" = None /\
  exists w',
    open_atomic "/e/out.p" wb false (play writes_ab) root_world
    = (Err (OSError ENOENT), w') /\
    fs w' = fs root_world /\
    log w' = [EvCreate "/e/tmpabcdefgh"].
Proof.
  split; [reflexivity|]. split; [reflexivity|].
  destruct (open_atomic_missing_directory root_world "/e/out.p" wb false
              (play writes_ab) (OSError ENOENT))
    as (_ & w' & Hrun & Hfs & Hlog & _).
  - reflexivity.
  - reflexivity.
  - by exists w'.
Defined.

(** X6.  A draw that is the destination's own name: when the destination
    names nothing and [mkstemp] makes the temporary file under that very
    name, the rename is of the file onto itself and the [finally] clause
    then removes it: [open_atomic] returns normally and the destination
    names nothing, the bytes written are lost. *)
Theorem open_atomic_name_collision (w w1 : world) (filepath : string) (d : fd)
    (m : fmode) (b : block) :
  mkstemp (dirname filepath) w = (Ok (d, filepath), w1) ->
  mkind m <> X ->
  block_error m b = None ->
  exists w',
    open_atomic filepath m false (play b) w = (Ok tt, w') /\
    read_bytes filepath w' = None /\
    fs w' = fs w.
Proof.
  intros Hmk Hm Hb.
  destruct (mkstemp_ok _ _ _ _ _ Hmk) as (_ & Hfree & _ & Hdir & c & Hc).
  destruct (open_atomic_reaches_rename w w1 filepath filepath d m b Hmk Hm Hb)
    as (wY & HY & ->).
  destruct (rename_and_cleanup w wY filepath filepath _ c HY Hfree Hc
              (PathFacts.tmp_plain _ _ _ Hc) (PathFacts.parents_self _) Hdir)
    as (wZ & -> & HfsZ & _).
  rewrite decide_True in HfsZ by done. rewrite decide_True by done.
  exists wZ. split; [done|]. split; [|done].
  unfold read_bytes. by rewrite HfsZ, Hfree.
Qed.

(** X6 at [sample_world], the destination being [d/tmpabcdefgh]. *)
Lemma open_atomic_name_collision_witness :
  exists w',
    open_atomic sample_tmp wb false (play writes_ab) sample_world = (Ok tt, w') /\
    read_bytes sample_tmp w' = None /\
    fs w' = fs sample_world.
Proof.
  apply (open_atomic_name_collision sample_world (snd (mkstemp "d" sample_world))
           sample_tmp (Fd sample_tmp) wb writes_ab).
  - by vm_compute.
  - done.
  - reflexivity.
Defined.

(** *** [safe_pickle_dump] *)

(** X8.  An object that cannot be pickled: when the temporary file has
    been made and [pickle.dump] raises [e], after whatever it has written,
    [safe_pickle_dump] raises [e] and the file system is as before the
    call: what the destination held is still there to load, and no partial
    pickle is left under any name. *)
Theorem safe_pickle_dump_failure {Obj : Type} (dump : Obj -> block)
    (loads : list byte -> option Obj) (obj : Obj) (e : exn)
    (w w1 : world) (fname tmp : string) (d : fd) :
  mkstemp (dirname fname) w = (Ok (d, tmp), w1) ->
  ending (dump obj) = Some e ->
  exists w',
    safe_pickle_dump dump obj fname w = (Err e, w') /\
    fs w' = fs w /\
    pickle_load loads fname w' = pickle_load loads fname w.
Proof.
  intros Hmk Hend.
  destruct (open_atomic_aborts w w1 fname tmp d wb false (dump obj) e Hmk)
    as (w' & Hrun & Hfs & _); [done| |].
  { unfold inner_error, block_error. by rewrite acts_error_writable, Hend. }
  exists w'. split; [done|]. split; [done|].
  unfold pickle_load, read_bytes. by rewrite Hfs.
Qed.

(** X8 at [sample_world], with the sample object that cannot be pickled. *)
Lemma safe_pickle_dump_failure_witness :
  exists w',
    safe_pickle_dump sample_dump None "d/out.p" sample_world
    = (Err (Raised "PicklingError"), w') /\
    fs w' = fs sample_world /\
    pickle_load sample_loads "d/out.p" w' = pickle_load sample_loads "d/out.p" sample_world.
Proof.
  apply (safe_pickle_dump_failure sample_dump sample_loads None (Raised "PicklingError")
           sample_world (snd (mkstemp "d" sample_world)) "d/out.p" sample_tmp
           (Fd sample_tmp)).
  - by vm_compute.
  - reflexivity.
Defined.

End AtomicFacts.
